(** * Physical restore of percona-backup-mongodb: rendezvous, planner, copy

    A shallow embedding of [pbm/restore/physical.go] (the [PhysRestore]
    methods), of the parts of [pbm/pbm.go] they use and of
    [Agent.restorePhysical], together with the properties the design
    document states about them.

    Conventions.
    - Go's [error] is [option error]: [None] is [nil].
    - [pbm.Status] is a string type in Go and a [string] here.
    - [int64] values are [Z]; additions the code performs on them wrap.
    - The object store, the clock and the peers are the environment: the
      store is a finite map from object names to objects, peers change it
      between two polling ticks.
    - Go maps are references: [map[string]struct{}] values live in a heap
      of sets and are passed around by location. *)

From Stdlib Require Import ZArith Lia Ascii.
From stdpp Require Import base option list gmap sets strings pretty.

Local Open Scope string_scope.
Local Open Scope list_scope.
Local Open Scope Z_scope.

(** ** Go strings *)

Module Strings.

(** [strings.HasPrefix(s, p)] *)
Fixpoint HasPrefix (s p : string) : bool :=
  match p, s with
  | EmptyString, _ => true
  | String c p', String d s' => if Ascii.eqb c d then HasPrefix s' p' else false
  | String _ _, EmptyString => false
  end.

(** [strings.TrimPrefix(s, p)]: [s] without the leading [p], or [s]. *)
Fixpoint drop_prefix (s p : string) : option string :=
  match p, s with
  | EmptyString, _ => Some s
  | String c p', String d s' => if Ascii.eqb c d then drop_prefix s' p' else None
  | String _ _, EmptyString => None
  end.

Definition TrimPrefix (s p : string) : string :=
  match drop_prefix s p with Some t => t | None => s end.

Definition rev_string (s : string) : string :=
  String.string_of_list_ascii (rev (String.list_ascii_of_string s)).

(** [strings.HasSuffix(s, p)] *)
Definition HasSuffix (s p : string) : bool :=
  HasPrefix (rev_string s) (rev_string p).

(** [len(s)] *)
Definition len (s : string) : nat := String.length s.

(** the slice [s[i:j]] for [i <= j <= len(s)] *)
Definition slice (s : string) (i j : nat) : string :=
  String.substring i (j - i) s.

(** [strings.LastIndex(s, "/")], as a [nat] when found *)
Fixpoint last_slash_from (s : string) (pos : nat) (found : option nat) : option nat :=
  match s with
  | EmptyString => found
  | String c s' =>
      last_slash_from s' (S pos) (if Ascii.eqb c "/"%char then Some pos else found)
  end.

Definition LastSlash (s : string) : option nat := last_slash_from s 0%nat None.

(** [path.Split(p)]: everything up to and including the final slash, and
    the rest. *)
Definition path_Split (p : string) : string * string :=
  match LastSlash p with
  | Some i => (slice p 0 (S i), slice p (S i) (len p))
  | None => ("", p)
  end.

(** decimal digits of a string, most significant first *)
Definition digit_of (c : Ascii.ascii) : option Z :=
  let n := Z.of_nat (Ascii.nat_of_ascii c) in
  if (48 <=? n) && (n <=? 57) then Some (n - 48) else None.

Fixpoint parse_digits (s : string) (acc : Z) : option Z :=
  match s with
  | EmptyString => Some acc
  | String c s' =>
      match digit_of c with
      | Some d => parse_digits s' (10 * acc + d)
      | None => None
      end
  end.

Definition min_int64 : Z := - 2 ^ 63.
Definition max_int64 : Z := 2 ^ 63 - 1.

Definition in_int64 (z : Z) : bool := (min_int64 <=? z) && (z <=? max_int64).

(** [strconv.ParseInt(s, 10, 0)] on a 64-bit platform: an optional sign,
    then at least one digit, digits only; a value out of [int64] is an
    error. [None] is the error. *)
Definition ParseInt (s : string) : option Z :=
  match s with
  | EmptyString => None
  | String c s' =>
      let '(neg, ds) :=
        if Ascii.eqb c "+"%char then (false, s')
        else if Ascii.eqb c "-"%char then (true, s')
        else (false, s) in
      match ds with
      | EmptyString => None
      | _ =>
          match parse_digits ds 0 with
          | Some n =>
              let z := if neg then - n else n in
              if in_int64 z then Some z else None
          | None => None
          end
      end
  end.

(** [fmt.Sprintf("%d", z)] *)
Definition itoa (z : Z) : string := pretty z.

(** two's complement wrap-around of [int64] arithmetic *)
Definition wrap64 (z : Z) : Z := (z + 2 ^ 63) mod 2 ^ 64 - 2 ^ 63.

Definition add64 (a b : Z) : Z := wrap64 (a + b).

End Strings.

Export Strings.

(** Functions of Go's [path], [path/filepath] and [strings] packages whose
    results the restore code only passes on. They are kept abstract: every
    statement below holds for any implementation of them. *)
Class GoPath := {
  (** [path.Dir] *)
  path_Dir : string → string;
  (** [filepath.Dir] *)
  filepath_Dir : string → string;
  (** [filepath.Base] *)
  filepath_Base : string → string;
  (** [filepath.Join] (and [path.Join]) *)
  filepath_Join : list string → string;
  (** [strings.TrimSpace] *)
  TrimSpace : string → string;
}.

(** ** Errors *)

(** The sentinel error values the code compares against:
    [storage.ErrNotExist], [storage.ErrEmpty], [pbm.ErrNotFound] and
    [restore.ErrNoDataForShard]. *)
Inductive sentinel := ErrNotExist | ErrEmpty | ErrNotFound | ErrNoDataForShard.

#[global] Instance sentinel_eq_dec : EqDecision sentinel.
Proof. solve_decision. Defined.

Inductive error :=
| ErrNew (msg : string)               (* errors.New, errors.Errorf *)
| ErrWrap (e : error) (msg : string)  (* errors.Wrap(e, msg), Wrapf, WithMessage *)
| ErrNode (node msg : string)         (* nodeErr{node, msg} *)
| ErrVar (s : sentinel).              (* a sentinel value *)

#[global] Instance error_eq_dec : EqDecision error.
Proof. solve_decision. Defined.

(** [err.Error()] *)
Fixpoint Error (e : error) : string :=
  match e with
  | ErrNew msg => msg
  | ErrWrap e' msg => msg +:+ ": " +:+ Error e'
  | ErrNode node msg => node +:+ " failed: " +:+ msg
  | ErrVar ErrNotExist => "no such file"
  | ErrVar ErrEmpty => "file is empty"
  | ErrVar ErrNotFound => "not found"
  | ErrVar ErrNoDataForShard => "no data for shard"
  end.

(** [errors.Is(e, s)] for a sentinel [s]: [s] occurs along the chain of
    wrapped errors. *)
Fixpoint errors_Is (e : error) (s : sentinel) : bool :=
  match e with
  | ErrVar s' => bool_decide (s' = s)
  | ErrWrap e' _ => errors_Is e' s
  | _ => false
  end.

Definition errors_Is_opt (e : option error) (s : sentinel) : bool :=
  match e with Some e => errors_Is e s | None => false end.

(** [errors.As(e, &nerr)] for [nerr : nodeErr] *)
Fixpoint errors_As_nodeErr (e : error) : option (string * string) :=
  match e with
  | ErrNode node msg => Some (node, msg)
  | ErrWrap e' _ => errors_As_nodeErr e'
  | _ => None
  end.

(** [errors.Wrap(err, msg)]: [nil] stays [nil]. *)
Definition errors_Wrap (e : option error) (msg : string) : option error :=
  match e with Some e => Some (ErrWrap e msg) | None => None end.

(** ** Statuses ([pbm.Status]) *)

Definition Status := string.

Definition StatusInit : Status := "init".
Definition StatusReady : Status := "ready".
Definition StatusDown : Status := "down".
Definition StatusStarting : Status := "starting".
Definition StatusRunning : Status := "running".
Definition StatusDumpDone : Status := "dumpDone".
Definition StatusPartlyDone : Status := "partlyDone".
Definition StatusDone : Status := "done".
Definition StatusCancelled : Status := "canceled".
Definition StatusError : Status := "error".

(** ** The object store, the clock and the heap of maps *)

(** Modelled from the spec: the storage backends ([storage.Storage]: S3,
    Azure, filesystem) are not part of the excerpt. Section 6 gives the
    surface: [save(name, reader, size) → err], [source_reader(name) →
    reader], [file_stat(name) → {size} | not-exist | empty]. An object is
    its body; the other cases stand for an object on which one of the
    three calls fails. *)
Inductive fobj :=
| Data (body : string)      (* an object; an empty body is [ErrEmpty] for FileStat *)
| StatFault (e : string)    (* FileStat fails with an I/O error *)
| OpenFault (e : string)    (* FileStat succeeds, SourceReader fails *)
| ReadFault (e : string)    (* SourceReader succeeds, reading the body fails *)
| SaveFault (e : string).   (* no object, and Save under this name fails *)

(** What a reader yields when it is read to the end. *)
Definition reader := (string + error)%type.

(** The calls the node issues on the store, with their results. *)
Inductive Event :=
| EvSave (name body : string) (res : option error)
| EvStat (name : string) (res : option error)
| EvOpen (name : string) (res : option error).

Abbreviation loc := nat.

Record World := mkWorld {
  stg : gmap string fobj;       (* the shared object store *)
  now : Z;                      (* time.Now().Unix() *)
  tick : nat;                   (* polling ticks elapsed *)
  heap : list (gset string);    (* the map[string]struct{} values, by location *)
  trace : list Event;           (* store calls issued so far, oldest first *)
  dbdir : list string;          (* the entries of the data directory r.dbpath *)
}.

Definition set_stg (s : gmap string fobj) (w : World) : World :=
  mkWorld s (now w) (tick w) (heap w) (trace w) (dbdir w).
Definition set_heap (h : list (gset string)) (w : World) : World :=
  mkWorld (stg w) (now w) (tick w) h (trace w) (dbdir w).
Definition set_dbdir (d : list string) (w : World) : World :=
  mkWorld (stg w) (now w) (tick w) (heap w) (trace w) d.
Definition log_event (e : Event) (w : World) : World :=
  mkWorld (stg w) (now w) (tick w) (heap w) (trace w ++ [e]) (dbdir w).

(** The state monad of the node's actions. *)
Definition M (A : Type) : Type := World → A * World.

Definition ret {A} (a : A) : M A := λ w, (a, w).
Definition bind {A B} (m : M A) (f : A → M B) : M B := λ w, let '(a, w') := m w in f a w'.

Notation "'let*' x ':=' m 'in' k" := (bind m (λ x, k))
  (at level 10, x pattern, m at level 100, k at level 200).

(** [if b { m }], and a call whose result is dropped or only logged *)
Definition when (b : bool) (m : M unit) : M unit := if b then m else ret tt.
Definition discard {A} (m : M A) : M unit := let* _ := m in ret tt.

(** [time.Now().Unix()] *)
Definition Now : M Z := λ w, (now w, w).

(** [stg.FileStat(name)] *)
Definition stat_result (o : option fobj) : option error :=
  match o with
  | None => Some (ErrVar ErrNotExist)
  | Some (Data body) => if decide (body = "") then Some (ErrVar ErrEmpty) else None
  | Some (StatFault e) => Some (ErrNew e)
  | Some (OpenFault _) | Some (ReadFault _) => None
  | Some (SaveFault _) => Some (ErrVar ErrNotExist)
  end.

Definition FileStat (name : string) : M (option error) := λ w,
  let res := stat_result (stg w !! name) in
  (res, log_event (EvStat name res) w).

(** [stg.SourceReader(name)] *)
Definition open_result (o : option fobj) : reader + error :=
  match o with
  | None => inr (ErrVar ErrNotExist)
  | Some (Data body) => inl (inl body)
  | Some (StatFault e) => inr (ErrNew e)
  | Some (OpenFault e) => inr (ErrNew e)
  | Some (ReadFault e) => inl (inr (ErrNew e))
  | Some (SaveFault _) => inr (ErrVar ErrNotExist)
  end.

Definition SourceReader (name : string) : M (reader + error) := λ w,
  let res := open_result (stg w !! name) in
  (res, log_event (EvOpen name (match res with inr e => Some e | inl _ => None end)) w).

(** [io.ReadAll(r)] *)
Definition ReadAll (rd : reader) : string + error := rd.

(** [stg.Save(name, body, -1)] *)
Definition Save (name body : string) : M (option error) := λ w,
  match stg w !! name with
  | Some (SaveFault e) => (Some (ErrNew e), log_event (EvSave name body (Some (ErrNew e))) w)
  | _ => (None, log_event (EvSave name body None) (set_stg (<[name := Data body]> (stg w)) w))
  end.

(** [okStatus()] and [errStatus(err)]: the bodies of status objects *)
Definition okStatus : M string := let* ts := Now in ret (itoa ts).
Definition errStatus (e : error) : M string := let* ts := Now in ret (itoa ts +:+ ":" +:+ Error e).

(** ** The restore object *)

(** [pbm.NodeInfo]; [IsLeader()], [IsClusterLeader()] and [IsConfigSrv()]
    are methods defined outside the excerpt and are taken as given. *)
Record NodeInfo := {
  Me : string;
  SetName : string;
  IsPrimary : bool;
  IsLeader : bool;
  IsClusterLeader : bool;
  IsConfigSrv : bool;
}.

(** [pbm.File] *)
Record File := mkFile {
  Name : string;
  Off : Z;
  Len : Z;
  Size : Z;
  StgSize : Z;
  Fmode : Z;
}.

(** [pbm.BackupReplset], the fields the restore reads *)
Record BackupReplset := {
  rsName : string;
  Journal : list File;
  Files : list File;
  MongodOpts : option string;
}.

(** [pbm.BackupMeta], the fields the restore reads *)
Record BackupMeta := {
  bcpType : string;
  bcpName : string;
  SrcBackup : string;
  Replsets : list BackupReplset;
  Compression : string;
  MongoVersion : string;
  bcpStatus : Status;
  bcpErr : string;
  PBMVersion : string;
}.

(** [files]: one frame of the artifact plan *)
Record files := mkFiles {
  BcpName : string;
  Cmpr : string;
  fData : list File;
  fdbpath : string;
}.

(** [PhysRestore], the fields the modelled methods use *)
Record PhysRestore := {
  nodeInfo : NodeInfo;
  rsConfID : string;             (* r.rsConf.ID *)
  rsMembers : list (string * bool);  (* r.rsConf.Members: Host, ArbiterOnly *)
  dbpath : string;
  startTS : Z;
  name : string;
  bcp : option BackupMeta;
  rfiles : list files;           (* r.files *)
  tmpConf : bool;                (* r.tmpConf != nil *)
  stgSet : bool;                 (* r.stg != nil *)
  stopHB : bool;                 (* r.stopHB != nil *)
  syncPathNode : string;
  syncPathNodeStat : string;
  syncPathRS : string;
  syncPathCluster : string;
  syncPathPeers : loc;
  syncPathShards : loc;
  syncPathDataShards : loc;
}.

Definition hbFrameSec : Z := 60 * 2.
Definition syncHbSuffix : string := "hb".

(** Actions that may still be waiting when the fuel (the number of ticks
    granted) runs out: [None] is "still polling". *)
Definition MF (A : Type) : Type := World → option (A * World).

Definition retF {A} (a : A) : MF A := λ w, Some (a, w).
Definition bindF {A B} (m : MF A) (f : A → MF B) : MF B := λ w,
  match m w with Some (a, w') => f a w' | None => None end.

Notation "'let?' x ':=' m 'in' k" := (bindF m (λ x, k))
  (at level 10, x pattern, m at level 100, k at level 200).

Definition lift {A} (m : M A) : MF A := λ w, Some (m w).

Section Rendezvous.

Context `{GoPath}.

(** [checkFile(f, stg)] *)
Definition checkFile (f : string) : M (bool * option error) :=
  let* err := FileStat f in
  match err with
  | None => ret (true, None)
  | Some e =>
      if bool_decide (e = ErrVar ErrNotExist) || bool_decide (e = ErrVar ErrEmpty)
      then ret (false, None)
      else ret (false, Some e)
  end.

(** The error [checkHB] returns for a stale heartbeat. *)
Definition stuck (t : Z) : error := ErrNew ("stuck, last beat ts: " +:+ itoa t).

(** [PhysRestore.checkHB(file)] *)
Definition checkHB (r : PhysRestore) (file : string) : M (option error) :=
  let* ts := Now in
  let* err := FileStat file in
  if errors_Is_opt err ErrNotExist then
    if add64 (startTS r) (hbFrameSec * 2) <? ts
    then ret (Some (stuck (startTS r)))
    else ret None
  else
    match err with
    | Some e => ret (Some (ErrWrap e "get file stat"))
    | None =>
        let* f := SourceReader file in
        match f with
        | inr e => ret (Some (ErrWrap e "get hb file"))
        | inl rd =>
            match ReadAll rd with
            | inr e => ret (Some (ErrWrap e "read content"))
            | inl b =>
                match ParseInt (TrimSpace b) with
                | None => ret (Some (ErrWrap (ErrNew "strconv.ParseInt") "decode"))
                | Some t =>
                    if add64 t (hbFrameSec * 2) <? ts
                    then ret (Some (stuck t))
                    else ret None
                end
            end
        end
    end.

(** *** Go maps by reference *)

(** The map at a location; a location outside the heap is a [nil] map. *)
Definition map_get (m : loc) (w : World) : gset string := default ∅ (heap w !! m).

(** [len(m)] *)
Definition map_len (m : loc) : M nat := λ w, (size (map_get m w), w).

(** [delete(m, k)]; a no-op on a [nil] map *)
Definition map_delete (m : loc) (k : string) : M unit := λ w,
  (tt, set_heap (<[m := map_get m w ∖ {[k]}]> (heap w)) w).

(** [make(map[K]V)] and map literals: a fresh location *)
Definition map_make (s : gset string) : M loc := λ w,
  (length (heap w), set_heap (heap w ++ [s]) w).

(** [copyMap(m)]: a fresh map that receives every key of [m] *)
Definition copyMap (m : loc) : M loc := λ w,
  map_make (foldr (λ k cp, {[k]} ∪ cp) ∅ (elements (map_get m w))) w.

(** *** The environment of a wait *)

(** Between two ticks of the 5 s ticker the peers write objects and the
    clock advances; [range] visits the keys of a map in an order the Go
    runtime chooses anew each time. *)
Record Env := {
  env_step : nat → gmap string fobj * Z → gmap string fobj * Z;
  range_order : nat → gset string → list string;
}.

Definition range_ok (E : Env) : Prop :=
  ∀ n (s : gset string), range_order E n s ≡ₚ elements s.

Definition next_tick (E : Env) : M unit := λ w,
  let '(s, t) := env_step E (tick w) (stg w, now w) in
  (tt, mkWorld s t (S (tick w)) (heap w) (trace w) (dbdir w)).

(** *** waitFiles *)

(** The local variables of [waitFiles] that survive an iteration. *)
Record wstate := mkW {
  retStatus : Status;
  curErr : option error;
  haveDone : bool;
}.

(** How one iteration of [for f := range objs] ends: with [continue] or by
    falling through (the loop goes on), or with a [return]. *)
Inductive flow :=
| Continue (s : wstate)
| Return (st : Status) (err : option error).

(** The body of [for f := range objs] in [waitFiles]. *)
Definition waitFile (r : PhysRestore) (status : Status) (objs : loc)
    (f : string) (s : wstate) : M flow :=
  let errFile := f +:+ "." +:+ StatusError in
  let* err := FileStat errFile in
  match err with
  | Some e =>
      if negb (bool_decide (e = ErrVar ErrNotExist)) then
        ret (Return StatusError (Some (ErrWrap e ("get file " +:+ errFile))))
      else
        let* err := checkHB r (f +:+ "." +:+ syncHbSuffix) in
        match err with
        | Some e =>
            let cur := ErrWrap e ("check heartbeat in " +:+ f +:+ "." +:+ syncHbSuffix) in
            if negb (bool_decide (status = StatusDone)) then
              ret (Return StatusError (Some cur))
            else
              let* _ := map_delete objs f in
              ret (Continue (mkW (retStatus s) (Some cur) (haveDone s)))
        | None =>
            let* (ok, err) := checkFile (f +:+ "." +:+ status) in
            match err with
            | Some e =>
                ret (Return StatusError (Some (ErrWrap e ("check file " +:+ f +:+ "." +:+ status))))
            | None =>
                if ok then
                  let* _ := map_delete objs f in
                  ret (Continue (mkW (retStatus s) (curErr s) true))
                else if negb (bool_decide (status = StatusDone)) then
                  ret (Continue s)
                else
                  let* (ok, err) := checkFile (f +:+ "." +:+ StatusPartlyDone) in
                  match err with
                  | Some e =>
                      ret (Return StatusError
                              (Some (ErrWrap e ("check file " +:+ f +:+ "." +:+ StatusPartlyDone))))
                  | None =>
                      if negb ok then ret (Continue s)
                      else
                        let* _ := map_delete objs f in
                        ret (Continue (mkW StatusPartlyDone (curErr s) true))
                  end
            end
        end
  | None =>
      let* rd := SourceReader errFile in
      match rd with
      | inr e => ret (Return StatusError (Some (ErrWrap e ("open error file " +:+ errFile))))
      | inl rd =>
          match ReadAll rd with
          | inr e => ret (Return StatusError (Some (ErrWrap e ("read error file " +:+ errFile))))
          | inl b =>
              if negb (bool_decide (status = StatusDone)) then
                ret (Return StatusError (Some (ErrNode (filepath_Base f) b)))
              else
                let* _ := map_delete objs f in
                ret (Continue (mkW (retStatus s) (Some (ErrNode (filepath_Base f) b)) (haveDone s)))
          end
      end
  end.

(** [for f := range objs { ... }] over the keys in the order [ks]. *)
Fixpoint rangeObjs (r : PhysRestore) (status : Status) (objs : loc)
    (ks : list string) (s : wstate) : M flow :=
  match ks with
  | [] => ret (Continue s)
  | f :: ks' =>
      let* res := waitFile r status objs f s in
      match res with
      | Continue s' => rangeObjs r status objs ks' s'
      | Return st e => ret (Return st e)
      end
  end.

(** What [waitFiles] returns once [objs] is empty after a pass. *)
Definition waitResult (s : wstate) (cluster : bool) : Status * option error :=
  match curErr s with
  | None => (retStatus s, None)
  | Some ce =>
      if haveDone s && negb cluster then (StatusPartlyDone, None)
      else (StatusError, Some ce)
  end.

(** [for range tk.C { ... }]: one unit of fuel per tick. *)
Fixpoint waitLoop (E : Env) (fuel : nat) (r : PhysRestore) (status : Status)
    (objs : loc) (cluster : bool) (s : wstate) : MF (Status * option error) :=
  match fuel with
  | O => λ _, None
  | S fuel' => λ w,
      let '(_, w1) := next_tick E w in
      let ks := range_order E (tick w) (map_get objs w1) in
      let '(res, w2) := rangeObjs r status objs ks s w1 in
      match res with
      | Return st e => Some ((st, e), w2)
      | Continue s' =>
          if decide (size (map_get objs w2) = 0%nat)
          then Some (waitResult s' cluster, w2)
          else waitLoop E fuel' r status objs cluster s' w2
      end
  end.

(** [PhysRestore.waitFiles(status, objs, cluster)] *)
Definition waitFiles (E : Env) (fuel : nat) (r : PhysRestore) (status : Status)
    (objs : loc) (cluster : bool) : MF (Status * option error) := λ w,
  if decide (size (map_get objs w) = 0%nat)
  then Some ((StatusError, Some (ErrNew "empty objects maps")), w)
  else waitLoop E fuel r status objs cluster (mkW status None false) w.

(** *** toState *)

(** [r.stg.Save(path+"."+string(status), okStatus(), -1)] *)
Definition saveStatus (path : string) (status : Status) : M (option error) :=
  let* body := okStatus in Save (path +:+ "." +:+ status) body.

(** [r.stg.Save(path+"."+string(pbm.StatusError), errStatus(e), -1)] *)
Definition saveError (path : string) (e : error) : M (option error) :=
  let* body := errStatus e in Save (path +:+ "." +:+ StatusError) body.

(** The block [if r.nodeInfo.IsPrimary || status == pbm.StatusDone]:
    [Some e] when the block makes [toState] return [StatusError, e]. *)
Definition toState_rs (E : Env) (fuel : nat) (r : PhysRestore) (status : Status)
    : MF (option error) :=
  if IsPrimary (nodeInfo r) || bool_decide (status = StatusDone) then
    let? cp := lift (copyMap (syncPathPeers r)) in
    let? (cstat, err) := waitFiles E fuel r status cp false in
    match err with
    | Some e => retF (Some (ErrWrap e "wait for nodes in rs"))
    | None =>
        let? err := lift (saveStatus (syncPathRS r) cstat) in
        retF (errors_Wrap err "write replset state")
    end
  else retF None.

(** The block [if r.nodeInfo.IsClusterLeader() || status == pbm.StatusDone]. *)
Definition toState_cluster (E : Env) (fuel : nat) (r : PhysRestore) (status : Status)
    : MF (option error) :=
  if IsClusterLeader (nodeInfo r) || bool_decide (status = StatusDone) then
    let? cp := lift (copyMap (syncPathShards r)) in
    let? (cstat, err) := waitFiles E fuel r status cp true in
    match err with
    | Some e => retF (Some (ErrWrap e "wait for shards"))
    | None =>
        let? err := lift (saveStatus (syncPathCluster r) cstat) in
        retF (errors_Wrap err "write replset state")
    end
  else retF None.

(** The body of [toState], up to its [return]. *)
Definition toState_body (E : Env) (fuel : nat) (r : PhysRestore) (status : Status)
    : MF (Status * option error) :=
  let? err := lift (saveStatus (syncPathNode r) status) in
  match err with
  | Some e => retF (StatusError, Some (ErrWrap e "write node state"))
  | None =>
      let? err := toState_rs E fuel r status in
      match err with
      | Some e => retF (StatusError, Some e)
      | None =>
          let? err := toState_cluster E fuel r status in
          match err with
          | Some e => retF (StatusError, Some e)
          | None =>
              let? m := lift (map_make {[syncPathCluster r]}) in
              let? (cstat, err) := waitFiles E fuel r status m true in
              match err with
              | Some e => retF (StatusError, Some (ErrWrap e "wait for shards"))
              | None => retF (cstat, None)
              end
          end
      end
  end.

(** The deferred function of [toState]: on an error of a status other than
    [done], the primary writes the replica set's error object and the
    cluster leader the cluster's. The results of these writes are only
    logged. *)
Definition toState_defer (r : PhysRestore) (status : Status) (err : option error) : M unit :=
  match err with
  | Some e =>
      let* _ := when (IsPrimary (nodeInfo r) && negb (bool_decide (status = StatusDone)))
                  (discard (saveError (syncPathRS r) e)) in
      when (IsClusterLeader (nodeInfo r) && negb (bool_decide (status = StatusDone)))
        (discard (saveError (syncPathCluster r) e))
  | None => ret tt
  end.

(** [PhysRestore.toState(status)] *)
Definition toState (E : Env) (fuel : nat) (r : PhysRestore) (status : Status)
    : MF (Status * option error) :=
  let? res := toState_body E fuel r status in
  let? _ := lift (toState_defer r status res.2) in
  retF res.

End Rendezvous.

(** ** The artifact planner: setBcpFiles *)

(** A call that ends by returning, or with a run-time panic (a [nil]
    pointer is dereferenced). *)
Inductive outcome (A : Type) :=
| Done (a : A)
| Panic.
Arguments Done {A} a.
Arguments Panic {A}.

(** Code the excerpt calls but does not contain: other packages of the
    repository and the [semver] library. Every statement holds for any
    implementation of them. *)
Class Outside := {
  (** [pbm.MakeReverseRSMapFunc(r.rsMap)] *)
  mapRevRS : string → string;
  (** [compress.CompressionType.Suffix()] *)
  Suffix : string → string;
  (** [version.CompatibleWith] and [pbm.BreakingChangesMap] *)
  CompatibleWith : string → list string → bool;
  BreakingChangesMap : string → list string;
  (** [version.DefaultInfo.Version] *)
  pbmVersion : string;
  (** [semver.Compare] and [semver.MajorMinor] *)
  semver_Compare : string → string → Z;
  semver_MajorMinor : string → string;
}.

(** [pbm.Shard], the fields the restore reads *)
Record Shard := { shardID : string; shardRS : string; shardHost : string }.

(** [pbm.MongoVersion] (the name is taken by the field of [BackupMeta]) *)
Record MongoVer := { VersionString : string; Version : list Z }.

(** What the control database, the local node and the local machine
    answer: [GetBackupMeta] and [GetMetaFromStore] by backup name, the
    other calls once. *)
Record Db := {
  GetBackupMeta : string → option BackupMeta * option error;
  GetMetaFromStore : string → option BackupMeta * option error;
  SetRestoreBackup : option error;
  GetMongoVersion : MongoVer + error;
  (** [exec.Command(r.mongod, "--version")]: the standard output, or the
      error of [cmd.Run()] *)
  mongodVersion : string + error;
  ClusterMembers : list Shard + error;
  (** the order in which [range] visits a [map[string]bool] *)
  rangeFiles : gmap string bool → list (string * bool);
}.

Definition rangeFiles_ok (db : Db) : Prop :=
  ∀ m, rangeFiles db m ≡ₚ map_to_list m.

Definition bcpDir : string := "__dir__".

Section Planner.

Context `{GoPath} `{Outside}.

(** [findDBpath(fname)] *)
Definition findDBpath (fname : string) : bool * string :=
  if negb (HasPrefix fname "/") then (false, "")
  else
    let d := (path_Split fname).1 in
    let prefix :=
      if HasSuffix d "/journal/" then path_Dir (slice d 0 (len d - 1)) else "" in
    let prefix :=
      if negb (bool_decide (prefix = "")) && negb (HasSuffix prefix "/")
      then prefix +:+ "/" else prefix in
    (true, prefix).

(** [getRS(bcp, rs)]; [None] is [nil] *)
Definition getRS (bcp : BackupMeta) (rs : string) : option BackupReplset :=
  List.find (λ r, bool_decide (rsName r = rs)) (Replsets bcp).

(** [append(rs.Files, rs.Journal...)] *)
Definition section_files (rs : BackupReplset) : list File := Files rs ++ Journal rs.

(** The initial [targetFiles]: every name of the target section, [false]. *)
Definition targets (fs : list File) : gmap string bool :=
  foldl (λ m f, <[Name f := false]> m) ∅ fs.

(** The inner loop of [setBcpFiles] over the files of one backup:
    [targetFiles], [data.Data] and [data.dbpath] as it goes. *)
Fixpoint collect (fs : list File) (targetFiles : gmap string bool)
    (data : list File) (dbp : string) : gmap string bool * list File * string :=
  match fs with
  | [] => (targetFiles, data, dbp)
  | f :: fs' =>
      if bool_decide (is_Some (targetFiles !! Name f)) && (0 <=? Off f) && (0 <=? Len f)
      then collect fs' (<[Name f := true]> targetFiles) (data ++ [f])
             (if decide (dbp = "") then (findDBpath (Name f)).2 else dbp)
      else collect fs' targetFiles data dbp
  end.

(** The [for { ... }] loop of [setBcpFiles]: one frame per backup, until a
    backup without source. One unit of fuel per backup. The result is
    [targetFiles], [r.files] and the error, if any. *)
Fixpoint planLoop (db : Db) (fuel : nat) (setName : string) (bcp : BackupMeta)
    (rs : option BackupReplset) (targetFiles : gmap string bool) (rfiles : list files)
    : option (outcome (gmap string bool * list files * option error)) :=
  match fuel with
  | O => None
  | S fuel' =>
      match rs with
      | None => Some Panic           (* rs.Files on a nil *BackupReplset *)
      | Some rs =>
          let '(tf, data, dbp) := collect (section_files rs) targetFiles [] "" in
          let rfiles := rfiles ++ [mkFiles (bcpName bcp) (Compression bcp) data dbp] in
          if decide (SrcBackup bcp = "") then Some (Done (tf, rfiles, None))
          else
            match GetBackupMeta db (SrcBackup bcp) with
            | (_, Some e) => Some (Done (tf, rfiles, Some (ErrWrap e "get source backup")))
            | (None, None) => Some Panic        (* bcp.Replsets on a nil *BackupMeta *)
            | (Some bcp', None) =>
                planLoop db fuel' setName bcp' (getRS bcp' setName) tf rfiles
            end
      end
  end.

(** The loop over [targetFiles] that gathers the directories to create. *)
Fixpoint collectDirs (ents : list (string * bool)) (dirs : list File)
    (dirsm : gset string) : list File :=
  match ents with
  | [] => dirs
  | (f, was) :: ents' =>
      if negb was then
        let dir := path_Dir f in
        if negb (bool_decide (dir = ".")) && negb (bool_decide (dir ∈ dirsm))
        then collectDirs ents' (dirs ++ [mkFile f (-1) (-1) (-1) 0 0]) ({[dir]} ∪ dirsm)
        else collectDirs ents' dirs dirsm
      else collectDirs ents' dirs dirsm
  end.

Definition set_rfiles (fs : list files) (r : PhysRestore) : PhysRestore :=
  {| nodeInfo := nodeInfo r; rsConfID := rsConfID r; rsMembers := rsMembers r;
     dbpath := dbpath r; startTS := startTS r; name := name r; bcp := bcp r;
     rfiles := fs; tmpConf := tmpConf r; stgSet := stgSet r; stopHB := stopHB r;
     syncPathNode := syncPathNode r; syncPathNodeStat := syncPathNodeStat r;
     syncPathRS := syncPathRS r; syncPathCluster := syncPathCluster r;
     syncPathPeers := syncPathPeers r; syncPathShards := syncPathShards r;
     syncPathDataShards := syncPathDataShards r |}.

(** [PhysRestore.setBcpFiles()]: the receiver afterwards and the error. *)
Definition setBcpFiles (db : Db) (fuel : nat) (r : PhysRestore)
    : option (outcome (PhysRestore * option error)) :=
  match bcp r with
  | None => Some Panic               (* bcp.Replsets on a nil *BackupMeta *)
  | Some bcp =>
      let setName := mapRevRS (SetName (nodeInfo r)) in
      match getRS bcp setName with
      | None =>
          Some (Done (r, Some (ErrNew ("no data in the backup for the replica set "
                                        +:+ setName))))
      | Some rs =>
          let targetFiles := targets (section_files rs) in
          match planLoop db fuel setName bcp (Some rs) targetFiles (rfiles r) with
          | None => None
          | Some Panic => Some Panic
          | Some (Done (tf, fs, Some e)) => Some (Done (set_rfiles fs r, Some e))
          | Some (Done (tf, fs, None)) =>
              let dirs := collectDirs (rangeFiles db tf) [] ∅ in
              let fs := if decide (0 < length dirs)%nat
                        then fs ++ [mkFiles bcpDir "" dirs ""] else fs in
              Some (Done (set_rfiles fs r, None))
          end
      end
  end.

End Planner.

(** ** Copying the files: copyFiles *)

(** The calls [copyFiles] makes on the local file system and on the
    store. *)
Inductive FsOp :=
| MkdirAll (dir : string)
| ReadSrc (src : string)                 (* readFn(src) *)
| Decompress (src cmpr : string)         (* compress.Decompress(sr, set.Cmpr) *)
| OpenDst (dst : string) (fmode : Z)     (* os.OpenFile(dst, O_WRONLY|O_CREATE, f.Fmode) *)
| Seek (dst : string) (off : Z)          (* fw.Seek(f.Off, io.SeekStart) *)
| Copy (src dst : string)                (* io.CopyBuffer(fw, data, cpbuf) *)
| Truncate (dst : string) (size : Z).    (* fw.Truncate(f.Size) *)

Section Copy.

Context `{GoPath} `{Outside}.

(** Which calls fail, and how. *)
Variable fails : FsOp → option error.

(** One call: it is recorded, and its error, if any, ends [copyFiles] with
    the message [msg]. *)
Definition attempt (op : FsOp) (msg : string) (done : list FsOp)
    (k : list FsOp → list FsOp * option error) : list FsOp * option error :=
  match fails op with
  | Some e => (done ++ [op], Some (ErrWrap e msg))
  | None => k (done ++ [op])
  end.

(** The body of [for _, f := range set.Data]. *)
Definition copyFile (r : PhysRestore) (setName : string) (set : files) (f : File)
    (done : list FsOp) : list FsOp * option error :=
  let src := filepath_Join [BcpName set; setName; Name f +:+ Suffix (Cmpr set)] in
  let src := if decide (Len f ≠ 0)
             then src +:+ "." +:+ itoa (Off f) +:+ "-" +:+ itoa (Len f) else src in
  let fname := if decide (fdbpath set ≠ "")
               then TrimPrefix (Name f) (fdbpath set) else Name f in
  let dst := filepath_Join [dbpath r; fname] in
  attempt (MkdirAll (filepath_Dir dst)) ("create path " +:+ filepath_Dir dst) done (λ done,
  if decide (BcpName set = bcpDir) then (done, None) else
  attempt (ReadSrc src) ("create source reader for <" +:+ src +:+ ">") done (λ done,
  attempt (Decompress src (Cmpr set)) ("decompress object " +:+ src) done (λ done,
  attempt (OpenDst dst (Fmode f)) ("create/open destination file <" +:+ dst +:+ ">") done (λ done,
  (if decide (Off f ≠ 0)
   then attempt (Seek dst (Off f))
          ("set file offset <" +:+ dst +:+ ">|" +:+ itoa (Off f)) done
   else λ k, k done) (λ done,
  attempt (Copy src dst) ("copy file <" +:+ dst +:+ ">") done (λ done,
  if decide (Size f ≠ 0)
  then attempt (Truncate dst (Size f))
         ("truncate file <" +:+ dst +:+ ">|" +:+ itoa (Size f)) done (λ done, (done, None))
  else (done, None))))))).

(** [for _, f := range set.Data { ... }] *)
Fixpoint copySet (r : PhysRestore) (setName : string) (set : files) (fs : list File)
    (done : list FsOp) : list FsOp * option error :=
  match fs with
  | [] => (done, None)
  | f :: fs' =>
      match copyFile r setName set f done with
      | (done, Some e) => (done, Some e)
      | (done, None) => copySet r setName set fs' done
      end
  end.

(** [for i := len(r.files) - 1; i >= 0; i--], over the frames in the order
    they are visited. *)
Fixpoint copySets (r : PhysRestore) (setName : string) (sets : list files)
    (done : list FsOp) : list FsOp * option error :=
  match sets with
  | [] => (done, None)
  | set :: sets' =>
      match copySet r setName set (fData set) done with
      | (done, Some e) => (done, Some e)
      | (done, None) => copySets r setName sets' done
      end
  end.

(** [PhysRestore.copyFiles()]: the calls made and the error. The download
    statistics of the S3 reader are left out. *)
Definition copyFiles (r : PhysRestore) : list FsOp * option error :=
  let setName := mapRevRS (SetName (nodeInfo r)) in
  copySets r setName (rev (rfiles r)) [].

End Copy.

(** ** The local restorer: Snapshot and what it calls *)

Module Substr.

(** [strings.Cut(s, sep)]: the text before and after the first [sep]. *)
Fixpoint Cut (s sep : string) : option (string * string) :=
  match drop_prefix s sep with
  | Some rest => Some ("", rest)
  | None =>
      match s with
      | EmptyString => None
      | String c s' =>
          match Cut s' sep with
          | Some (a, b) => Some (String c a, b)
          | None => None
          end
      end
  end.

(** [strings.Contains(s, sub)] *)
Definition Contains (s sub : string) : bool :=
  match Cut s sub with Some _ => true | None => false end.

Definition newline : string := String (Ascii.ascii_of_nat 10) "".

(** [strings.Split(s, "\n")[0]] *)
Definition firstLine (s : string) : string :=
  match Cut s newline with Some (a, _) => a | None => s end.

End Substr.

Export Substr.

(** [pbm.PhysRestoresDir] is declared outside the excerpt; the comment of
    [toState] gives the layout [.pbm.restore/<restore-name>]. *)
Definition PhysRestoresDir : string := ".pbm.restore".

Definition internalMongodLog : string := "pbm.restore.log".

(** [nodeStatus] and its two bits *)
Definition nodeStatus := Z.
Definition restoreStared : nodeStatus := Z.shiftl 1 0.
Definition restoreDone : nodeStatus := Z.shiftl 1 1.

(** [n.is(s)] *)
Definition nodeStatus_is (n s : nodeStatus) : bool := negb (Z.land n s =? 0).

(** [pbm.RestoreCmd] *)
Record RestoreCmd := { cmdName : string; cmdBackupName : string }.

(** The steps of [Snapshot] whose inside is a supervised boot of the
    database. *)
Inductive step := StepCopy | StepPrepareData | StepRecover | StepResetRS.

(** What the local machine, the local database and the control database
    answer while [Snapshot] runs. *)
Record Local := {
  GetConfig : option error;              (* r.cn.GetConfig() *)
  GetStorage : option error;             (* pbm.Storage(cfg, l) *)
  GetShards : list Shard + error;        (* r.cn.GetShards() *)
  CreateTemp : option error;             (* os.CreateTemp *)
  encodeConf : option error;             (* enc.Encode(opts) *)
  closeConf : option error;              (* enc.Close() *)
  syncConf : option error;               (* r.tmpConf.Sync() *)
  GetReplsetStatus : nat + error;        (* len(rsStat.Members) *)
  GetInfo : nat → bool + error;          (* r.node.GetInfo().IsPrimary, try by try *)
  Shutdown : option error;               (* r.node.Shutdown() *)
  lockStat : nat → Z + error;            (* os.Stat of mongod.lock: its size, try by try *)
  openDir : option error;                (* os.Open(dir) *)
  readDir : option error;                (* d.Readdirnames(-1) *)
  rm_fails : string → option error;      (* os.RemoveAll, os.Remove on an entry *)
  copy_fails : FsOp → option error;      (* the calls of copyFiles *)
  step_fails : step → option error;      (* prepareData, recoverStandalone, resetRS *)
  dir_after : step → list string → list string;  (* the data directory after a step *)
  statBody : string;                     (* the download statistics as JSON *)
  encodeMeta : option error;             (* enc.Encode(meta) *)
  metaBody : string;                     (* the restore meta as JSON *)
}.

Definition set_bcp (b : option BackupMeta) (r : PhysRestore) : PhysRestore :=
  {| nodeInfo := nodeInfo r; rsConfID := rsConfID r; rsMembers := rsMembers r;
     dbpath := dbpath r; startTS := startTS r; name := name r; bcp := b;
     rfiles := rfiles r; tmpConf := tmpConf r; stgSet := stgSet r; stopHB := stopHB r;
     syncPathNode := syncPathNode r; syncPathNodeStat := syncPathNodeStat r;
     syncPathRS := syncPathRS r; syncPathCluster := syncPathCluster r;
     syncPathPeers := syncPathPeers r; syncPathShards := syncPathShards r;
     syncPathDataShards := syncPathDataShards r |}.

Definition set_tmpConf (b : bool) (r : PhysRestore) : PhysRestore :=
  {| nodeInfo := nodeInfo r; rsConfID := rsConfID r; rsMembers := rsMembers r;
     dbpath := dbpath r; startTS := startTS r; name := name r; bcp := bcp r;
     rfiles := rfiles r; tmpConf := b; stgSet := stgSet r; stopHB := stopHB r;
     syncPathNode := syncPathNode r; syncPathNodeStat := syncPathNodeStat r;
     syncPathRS := syncPathRS r; syncPathCluster := syncPathCluster r;
     syncPathPeers := syncPathPeers r; syncPathShards := syncPathShards r;
     syncPathDataShards := syncPathDataShards r |}.

Definition set_stopHB (b : bool) (r : PhysRestore) : PhysRestore :=
  {| nodeInfo := nodeInfo r; rsConfID := rsConfID r; rsMembers := rsMembers r;
     dbpath := dbpath r; startTS := startTS r; name := name r; bcp := bcp r;
     rfiles := rfiles r; tmpConf := tmpConf r; stgSet := stgSet r; stopHB := b;
     syncPathNode := syncPathNode r; syncPathNodeStat := syncPathNodeStat r;
     syncPathRS := syncPathRS r; syncPathCluster := syncPathCluster r;
     syncPathPeers := syncPathPeers r; syncPathShards := syncPathShards r;
     syncPathDataShards := syncPathDataShards r |}.

Definition set_shards (m : loc) (r : PhysRestore) : PhysRestore :=
  {| nodeInfo := nodeInfo r; rsConfID := rsConfID r; rsMembers := rsMembers r;
     dbpath := dbpath r; startTS := startTS r; name := name r; bcp := bcp r;
     rfiles := rfiles r; tmpConf := tmpConf r; stgSet := stgSet r; stopHB := stopHB r;
     syncPathNode := syncPathNode r; syncPathNodeStat := syncPathNodeStat r;
     syncPathRS := syncPathRS r; syncPathCluster := syncPathCluster r;
     syncPathPeers := syncPathPeers r; syncPathShards := m;
     syncPathDataShards := syncPathDataShards r |}.

Definition set_dataShards (m : loc) (r : PhysRestore) : PhysRestore :=
  {| nodeInfo := nodeInfo r; rsConfID := rsConfID r; rsMembers := rsMembers r;
     dbpath := dbpath r; startTS := startTS r; name := name r; bcp := bcp r;
     rfiles := rfiles r; tmpConf := tmpConf r; stgSet := stgSet r; stopHB := stopHB r;
     syncPathNode := syncPathNode r; syncPathNodeStat := syncPathNodeStat r;
     syncPathRS := syncPathRS r; syncPathCluster := syncPathCluster r;
     syncPathPeers := syncPathPeers r; syncPathShards := syncPathShards r;
     syncPathDataShards := m |}.

(** The assignments of [init] from [r.stg] to [r.syncPathPeers]: the
    storage, the name, the start time and the rendezvous paths. *)
Definition set_paths (nm : string) (ts : Z) (peers : loc) (r : PhysRestore) : PhysRestore :=
  let rsdir := PhysRestoresDir +:+ "/" +:+ nm +:+ "/rs." +:+ rsConfID r in
  {| nodeInfo := nodeInfo r; rsConfID := rsConfID r; rsMembers := rsMembers r;
     dbpath := dbpath r; startTS := ts; name := nm; bcp := bcp r;
     rfiles := rfiles r; tmpConf := tmpConf r; stgSet := true; stopHB := stopHB r;
     syncPathNode := rsdir +:+ "/node." +:+ Me (nodeInfo r);
     syncPathNodeStat := rsdir +:+ "/stat." +:+ Me (nodeInfo r);
     syncPathRS := rsdir +:+ "/rs";
     syncPathCluster := PhysRestoresDir +:+ "/" +:+ nm +:+ "/cluster";
     syncPathPeers := peers; syncPathShards := syncPathShards r;
     syncPathDataShards := syncPathDataShards r |}.

Definition lift_out {A} (m : M A) : MF (outcome A) := λ w,
  let '(a, w') := m w in Some (Done a, w').

Section Restorer.

Context `{GoPath} `{Outside}.

Variable E : Env.
Variable L : Local.
Variable db : Db.

(** [PhysRestore.hb()] *)
Definition hb (r : PhysRestore) : M (option error) :=
  let* ts := Now in
  let* err := Save (syncPathNode r +:+ "." +:+ syncHbSuffix) (itoa ts) in
  match err with
  | Some e => ret (Some (ErrWrap e "write node hb"))
  | None =>
      let* err := Save (syncPathRS r +:+ "." +:+ syncHbSuffix) (itoa ts) in
      match err with
      | Some e => ret (Some (ErrWrap e "write rs hb"))
      | None =>
          let* err := Save (syncPathCluster r +:+ "." +:+ syncHbSuffix) (itoa ts) in
          match err with
          | Some e => ret (Some (ErrWrap e "write rs hb"))
          | None => ret None
          end
      end
  end.

(** The keys [init] puts into [r.syncPathPeers]: a path per member that is
    not an arbiter. *)
Definition peer_paths (nm : string) (r : PhysRestore) : gset string :=
  foldl (λ s (m : string * bool),
           if negb m.2
           then {[PhysRestoresDir +:+ "/" +:+ nm +:+ "/rs." +:+ rsConfID r
                  +:+ "/node." +:+ m.1]} ∪ s
           else s) ∅ (rsMembers r).

(** The keys of [r.syncPathDataShards] and of [r.syncPathShards]: a path
    per shard. *)
Definition shard_paths (nm : string) (sh : list Shard) : gset string :=
  foldl (λ s x, {[PhysRestoresDir +:+ "/" +:+ nm +:+ "/rs." +:+ shardRS x +:+ "/rs"]} ∪ s)
    ∅ sh.

(** [PhysRestore.init(name, opid, l)]. The heartbeat task it starts belongs
    to the environment. *)
Definition init (nm : string) (r : PhysRestore) : M (PhysRestore * option error) :=
  match GetConfig L with
  | Some e => ret (r, Some (ErrWrap e "get pbm config"))
  | None =>
      match GetStorage L with
      | Some e => ret (r, Some (ErrWrap e "get storage"))
      | None =>
          let* ts := Now in
          let* peers := map_make (peer_paths nm r) in
          let r := set_paths nm ts peers r in
          let continue (r : PhysRestore) : M (PhysRestore * option error) :=
            let* _ := hb r in
            ret (set_stopHB true r, None) in
          if IsConfigSrv (nodeInfo r) then
            match GetShards L with
            | inr e => ret (r, Some (ErrWrap e "get data shards"))
            | inl sh =>
                let* ds := map_make (shard_paths nm sh) in
                continue (set_dataShards ds r)
            end
          else continue r
      end
  end.

(** [majmin(v)] *)
Definition majmin (v : string) : string :=
  match v with
  | EmptyString => v
  | String c _ =>
      semver_MajorMinor (if negb (Ascii.eqb c "v") then "v" +:+ v else v)
  end.

(** [PhysRestore.checkMongod(needVersion)] *)
Definition checkMongod (needVersion : string) : string * option error :=
  match mongodVersion db with
  | inr e => ("", Some (ErrNew ("run: " +:+ Error e)))
  | inl stdout =>
      match Cut (firstLine stdout) "db version " with
      | None => ("", Some (ErrNew ("parse version from output " +:+ stdout)))
      | Some (_, v) =>
          if negb (semver_Compare (majmin needVersion) (majmin v) =? 0)
          then ("", Some (ErrNew ("backup's Mongo version (" +:+ needVersion
                                   +:+ ") is not compatible with mongod " +:+ v)))
          else (v, None)
      end
  end.

(** The replica sets of the backup that the cluster does not have. *)
Definition extra_replsets (members : list Shard) (b : BackupMeta) : list string :=
  rsName <$> filter (λ sh, rsName sh ∉ (λ m, mapRevRS (shardRS m)) <$> members) (Replsets b).

(** [strings.Join(l, ",")] *)
Fixpoint join_comma (l : list string) : string :=
  match l with
  | [] => ""
  | [s] => s
  | s :: l' => s +:+ "," +:+ join_comma l'
  end.

(** [PhysRestore.prepareBackup(backupName)] *)
Definition prepareBackup (fuel : nat) (backupName : string) (r : PhysRestore)
    : MF (outcome (PhysRestore * option error)) :=
  let '(b, err) := GetBackupMeta db backupName in
  let '(b, err) := if errors_Is_opt err ErrNotFound
                   then GetMetaFromStore db backupName else (b, err) in
  let r := set_bcp b r in
  match err with
  | Some e => retF (Done (r, Some (ErrWrap e "get backup metadata")))
  | None =>
  match b with
  | None => retF (Done (r, Some (ErrNew "snapshot name doesn't set")))
  | Some b =>
  match SetRestoreBackup db with
  | Some e => retF (Done (r, Some (ErrWrap e "set backup name")))
  | None =>
  if negb (bool_decide (bcpStatus b = StatusDone)) then
    retF (Done (r, Some (ErrNew ("backup wasn't successful: status: " +:+ bcpStatus b
                                  +:+ ", error: " +:+ bcpErr b))))
  else if negb (CompatibleWith (PBMVersion b) (BreakingChangesMap (bcpType b))) then
    retF (Done (r, Some (ErrNew ("backup version (v" +:+ PBMVersion b
                                  +:+ ") is not compatible with PBM v" +:+ pbmVersion))))
  else
  match GetMongoVersion db with
  | inr e => retF (Done (r, Some (ErrWrap e "define mongo version")))
  | inl mgoV =>
  if (length (Version mgoV) <? 1)%nat then
    retF (Done (r, errors_Wrap None "define mongo version"))
  else if negb (semver_Compare (majmin (MongoVersion b)) (majmin (VersionString mgoV)) =? 0)
  then
    retF (Done (r, Some (ErrNew ("backup's Mongo version (" +:+ MongoVersion b
                                  +:+ ") is not compatible with Mongo "
                                  +:+ VersionString mgoV))))
  else
  match (checkMongod (MongoVersion b)).2 with
  | Some e => retF (Done (r, Some (ErrWrap e "check mongod binary")))
  | None =>
  match setBcpFiles db fuel r with
  | None => λ _, None
  | Some Panic => retF Panic
  | Some (Done (r, Some e)) => retF (Done (r, Some (ErrWrap e "get data for restore")))
  | Some (Done (r, None)) =>
  match ClusterMembers db with
  | inr e => retF (Done (r, Some (ErrWrap e "get cluster members")))
  | inl s =>
      let? m := lift (map_make (shard_paths (name r) s)) in
      let r := set_shards m r in
      let nors := extra_replsets s b in
      if decide (0 < length nors)%nat then
        retF (Done (r, Some (ErrNew ("extra/unknown replica set found in the backup: "
                                      +:+ join_comma nors))))
      else
        let setName := mapRevRS (SetName (nodeInfo r)) in
        if bool_decide (setName ∈ rsName <$> Replsets b) then retF (Done (r, None))
        else if IsLeader (nodeInfo r) then
          retF (Done (r, Some (ErrNew "no data for the config server or sole rs in backup")))
        else retF (Done (r, Some (ErrVar ErrNoDataForShard)))
  end end end end end end end.

(** [PhysRestore.setTmpConf()] *)
Definition setTmpConf (r : PhysRestore) : outcome (PhysRestore * option error) :=
  match bcp r with
  | None => Panic
  | Some b =>
      let setName := mapRevRS (SetName (nodeInfo r)) in
      let early : bool :=
        match List.find (λ v, bool_decide (rsName v = setName)) (Replsets b) with
        | Some v => match MongodOpts v with None => true | Some _ => false end
        | None => false
        end in
      if early then Done (r, None)
      else
        match CreateTemp L with
        | Some e => Done (r, Some (ErrWrap e "create tmp config"))
        | None =>
            let r := set_tmpConf true r in
            match encodeConf L with
            | Some e => Done (r, Some (ErrWrap e "encode options"))
            | None =>
                match closeConf L with
                | Some e => Done (r, Some (ErrWrap e "close encoder"))
                | None => Done (r, errors_Wrap (syncConf L) "fsync")
                end
            end
        end
  end.

(** The loop of [removeAll] over the names of the directory: the entries
    left, and the error. *)
Fixpoint removeNames (names : list string) (kept : list string) : list string * option error :=
  match names with
  | [] => (kept, None)
  | n :: names' =>
      if bool_decide (n = internalMongodLog) then removeNames names' kept
      else
        match rm_fails L n with
        | Some e => (kept, Some (ErrWrap e ("remove '" +:+ n +:+ "'")))
        | None => removeNames names' (filter (λ x, x ≠ n) kept)
        end
  end.

(** [removeAll(dir, l)] on the data directory *)
Definition removeAll : M (option error) := λ w,
  match openDir L with
  | Some e => (Some (ErrWrap e "open dir"), w)
  | None =>
      match readDir L with
      | Some e => (Some (ErrWrap e "read file names"), w)
      | None =>
          let '(kept, err) := removeNames (dbdir w) (dbdir w) in
          (err, set_dbdir kept w)
      end
  end.

(** The loop of [flush] that waits for the node to step down and then
    shuts it down; a unit of fuel per try. *)
Fixpoint stepDown (fuel : nat) (try : nat) (members : nat) : option (option error) :=
  match fuel with
  | O => None
  | S fuel' =>
      match GetInfo L try with
      | inr e => Some (Some (ErrWrap e "get node info"))
      | inl isPrimary =>
          if negb isPrimary || Nat.eqb members 1 then
            match Shutdown L with
            | Some e =>
                if Contains (Error e)
                     "(ConflictingOperationInProgress) This node is already in the process of stepping down"
                then Some (Some (ErrWrap e "shutdown server"))
                else Some None
            | None => Some None
            end
          else stepDown fuel' (S try) members
      end
  end.

(** [waitMgoShutdown(dbpath)]; a unit of fuel per tick of one second *)
Fixpoint waitMgoShutdown (fuel : nat) (try : nat) (r : PhysRestore) : option (option error) :=
  match fuel with
  | O => None
  | S fuel' =>
      match lockStat L try with
      | inr e => Some (Some (ErrWrap e ("check for lock file "
                                         +:+ filepath_Join [dbpath r; "mongod.lock"])))
      | inl size => if size =? 0 then Some None else waitMgoShutdown fuel' (S try) r
      end
  end.

Definition liftO {A} (o : option A) : MF A := λ w,
  match o with Some a => Some (a, w) | None => None end.

(** [PhysRestore.flush()] *)
Definition flush (fuel : nat) (r : PhysRestore) : MF (option error) :=
  match GetReplsetStatus L with
  | inr e => retF (Some (ErrWrap e "get replset status"))
  | inl members =>
      let? err :=
        if IsConfigSrv (nodeInfo r) then
          let? (_, err) := waitFiles E fuel r StatusDown (syncPathDataShards r) false in
          retF (errors_Wrap err "wait for datashards to shutdown")
        else retF None in
      match err with
      | Some e => retF (Some e)
      | None =>
          let? err := liftO (stepDown fuel 0 members) in
          match err with
          | Some e => retF (Some e)
          | None =>
              let? err := liftO (waitMgoShutdown fuel 0 r) in
              match err with
              | Some e => retF (Some (ErrWrap e "shutdown"))
              | None =>
                  let? err :=
                    if IsPrimary (nodeInfo r)
                    then lift (saveStatus (syncPathRS r) StatusDown)
                    else retF None in
                  match err with
                  | Some e => retF (Some (ErrWrap e "write replset StatusDown"))
                  | None =>
                      let? err := lift removeAll in
                      retF (errors_Wrap err ("flush dbpath " +:+ dbpath r))
                  end
              end
          end
      end
  end.

(** [PhysRestore.MarkFailed(meta, e, markCluster)]. The restore meta it
    fills in is local to [Snapshot] and not used afterwards. With no
    storage ([r.stg] is [nil]) the first [Save] panics. *)
Definition MarkFailed (r : PhysRestore) (e : error) (markCluster : bool) : M (outcome unit) :=
  let e := match errors_As_nodeErr e with
           | Some (node, msg) => ErrNode node msg
           | None => e
           end in
  if negb (stgSet r) then ret Panic
  else
    let* _ := saveError (syncPathNode r) e in
    let* _ := when (IsPrimary (nodeInfo r) && markCluster)
                (discard (saveError (syncPathRS r) e)) in
    let* _ := when (IsClusterLeader (nodeInfo r) && markCluster)
                (discard (saveError (syncPathCluster r) e)) in
    ret (Done tt).

(** [os.Remove(path.Join(r.dbpath, internalMongodLog))]; its error is
    only logged *)
Definition removeLog : M unit := λ w,
  match rm_fails L internalMongodLog with
  | Some _ => (tt, w)
  | None => (tt, set_dbdir (filter (λ x, x ≠ internalMongodLog) (dbdir w)) w)
  end.

(** [PhysRestore.close(noerr, cleanup)]. Removing the temporary
    configuration and stopping the heartbeats leave the store and the data
    directory as they are. *)
Definition close (r : PhysRestore) (noerr cleanup : bool) : M unit :=
  if noerr then removeLog
  else if cleanup then discard removeAll
  else ret tt.

(** [PhysRestore.writeStat(stat)] *)
Definition writeStat (r : PhysRestore) : M (option error) :=
  let* err := Save (syncPathNodeStat r) (statBody L) in
  ret (errors_Wrap err "write").

(** [PhysRestore.dumpMeta(meta, s, msg)] *)
Definition dumpMeta (cmd : RestoreCmd) (r : PhysRestore) : M (option error) :=
  let nm := PhysRestoresDir +:+ "/" +:+ cmdName cmd +:+ ".json" in
  let* err := FileStat nm in
  match err with
  | None => ret None
  | Some e =>
      if negb (bool_decide (e = ErrVar ErrNotExist)) then
        ret (Some (ErrWrap e ("check restore meta `" +:+ nm +:+ "`")))
      else
        match encodeMeta L with
        | Some e => ret (Some (ErrWrap e "encode restore meta"))
        | None =>
            let* err := Save nm (metaBody L) in
            ret (errors_Wrap err "write restore meta")
        end
  end.

(** A step of the restore made of a supervised boot of the database, or
    the copy: what it leaves in the data directory and its error. *)
Definition localStep (s : step) (err : option error) : M (option error) := λ w,
  (err, set_dbdir (dir_after L s (dbdir w)) w).

(** What [Snapshot] has reached when its body returns: [progress], the
    receiver and the error. *)
Definition reached_state := (nodeStatus * PhysRestore * option error)%type.

(** The body of [Snapshot] from [toState(done)] on, after [progress |=
    restoreDone]. *)
Definition Snapshot_finish (fuel : nat) (cmd : RestoreCmd) (progress : nodeStatus)
    (r : PhysRestore) : MF (outcome reached_state) :=
  let? (stat, err) := toState E fuel r StatusDone in
  match err with
  | Some e => retF (Done (progress, r, Some (ErrWrap e ("moving to state " +:+ StatusDone))))
  | None =>
      let? err := lift (dumpMeta cmd r) in
      retF (Done (progress, r, errors_Wrap err "writing restore meta to storage"))
  end.

(** The body of [Snapshot] from the copy on, after [progress |=
    restoreStared]. *)
Definition Snapshot_restore (fuel : nat) (cmd : RestoreCmd) (progress : nodeStatus)
    (r : PhysRestore) : MF (outcome reached_state) :=
  let? err := lift (localStep StepCopy (copyFiles (copy_fails L) r).2) in
  match err with
  | Some e => retF (Done (progress, r, Some (ErrWrap e "copy files")))
  | None =>
  let? _ := lift (writeStat r) in
  let? err := lift (localStep StepPrepareData (step_fails L StepPrepareData)) in
  match err with
  | Some e => retF (Done (progress, r, Some (ErrWrap e "prepare data")))
  | None =>
  let? err := lift (localStep StepRecover (step_fails L StepRecover)) in
  match err with
  | Some e => retF (Done (progress, r, Some (ErrWrap e "recover oplog as standalone")))
  | None =>
  let? err := lift (localStep StepResetRS (step_fails L StepResetRS)) in
  match err with
  | Some e => retF (Done (progress, r, Some (ErrWrap e "clean-up, rs_reset")))
  | None => Snapshot_finish fuel cmd (Z.lor progress restoreDone) r
  end end end end.

(** The body of [Snapshot] up to the call of [flush]: either it returns
    (left), or it goes on with the receiver as it is then (right). *)
Definition Snapshot_prepare (fuel : nat) (cmd : RestoreCmd) (r : PhysRestore)
    : MF (outcome (reached_state + PhysRestore)) :=
  let progress : nodeStatus := 0 in
  let? (r, err) := lift (init (cmdName cmd) r) in
  match err with
  | Some e => retF (Done (inl (progress, r, Some (ErrWrap e "init"))))
  | None =>
  let? res := prepareBackup fuel (cmdBackupName cmd) r in
  match res with
  | Panic => retF Panic
  | Done (r, Some e) => retF (Done (inl (progress, r, Some e)))
  | Done (r, None) =>
  match bcp r with
  | None => retF Panic                    (* meta.Type = r.bcp.Type *)
  | Some _ =>
  match setTmpConf r with
  | Panic => retF Panic
  | Done (r, Some e) => retF (Done (inl (progress, r, Some (ErrWrap e "set tmp config"))))
  | Done (r, None) =>
  let? (_, err) := toState E fuel r StatusStarting in
  match err with
  | Some e => retF (Done (inl (progress, r, Some (ErrWrap e "move to running state"))))
  | None =>
  let? (_, err) := toState E fuel r StatusRunning in
  match err with
  | Some e =>
      retF (Done (inl (progress, r, Some (ErrWrap e ("moving to state " +:+ StatusRunning)))))
  | None => retF (Done (inr r))
  end end end end end end.

(** The body of [Snapshot] up to its [return]. *)
Definition Snapshot_body (fuel : nat) (cmd : RestoreCmd) (r : PhysRestore)
    : MF (outcome reached_state) :=
  let? res := Snapshot_prepare fuel cmd r in
  match res with
  | Panic => retF Panic
  | Done (inl st) => retF (Done st)
  | Done (inr r) =>
      let progress : nodeStatus := 0 in
      let? err := flush fuel r in
      match err with
      | Some e => retF (Done (progress, r, Some e))
      | None => Snapshot_restore fuel cmd (Z.lor progress restoreStared) r
      end
  end.

(** How a call of [Snapshot] ends. *)
Inductive ending :=
| Returned (err : option error)
| Panicked.

(** The deferred function of [Snapshot]. *)
Definition Snapshot_defer (progress : nodeStatus) (r : PhysRestore) (err : option error)
    : M ending :=
  let* marked :=
    match err with
    | Some e =>
        if negb (nodeStatus_is progress restoreDone) && negb (errors_Is e ErrNoDataForShard)
        then MarkFailed r e (negb (nodeStatus_is progress restoreStared))
        else ret (Done tt)
    | None => ret (Done tt)
    end in
  match marked with
  | Panic => ret Panicked
  | Done _ =>
      let* _ := close r (bool_decide (err = None))
                  (nodeStatus_is progress restoreStared
                   && negb (nodeStatus_is progress restoreDone)) in
      ret (Returned err)
  end.

(** [PhysRestore.Snapshot(cmd, opid, l, stopAgentC, pauseHB)] *)
Definition Snapshot (fuel : nat) (cmd : RestoreCmd) (r : PhysRestore) : MF ending :=
  let? res := Snapshot_body fuel cmd r in
  match res with
  | Panic => retF Panicked
  | Done (progress, r, err) => lift (Snapshot_defer progress r err)
  end.

(** What the agent gets before it starts the restore: the node's
    information, the restore object of [NewPhysical], the lock. *)
Record AgentEnv := {
  agentGetInfo : NodeInfo + error;
  newPhysical : PhysRestore + error;
  acquireLock : bool * option error;
}.

(** [Agent.restorePhysical(r, opid, ep, l)] *)
Definition restorePhysical (A : AgentEnv) (fuel : nat) (cmd : RestoreCmd) : MF ending :=
  match agentGetInfo A with
  | inr e => retF (Returned (Some (ErrWrap e "get node info")))
  | inl nodeInfo =>
      match newPhysical A with
      | inr e => retF (Returned (Some (ErrWrap e "init physical backup")))
      | inl rstr =>
          let locked : option error :=
            if IsPrimary nodeInfo then
              match acquireLock A with
              | (_, Some e) => Some (ErrWrap e "acquiring lock")
              | (false, None) =>
                  Some (ErrNew "unbale to run the restore while another operation running")
              | (true, None) => None
              end
            else None in
          match locked with
          | Some e => retF (Returned (Some e))
          | None =>
              let? res := Snapshot fuel cmd rstr in
              match res with
              | Panicked => retF Panicked
              | Returned (Some e) =>
                  if errors_Is e ErrNoDataForShard then retF (Returned None)
                  else retF (Returned (Some e))
              | Returned None => retF (Returned None)
              end
          end
      end
  end.

End Restorer.

(** * Vocabulary of the statements *)

Definition is_read (e : Event) : Prop :=
  match e with EvSave _ _ _ => False | _ => True end.

(** From [w] to [w'] the node issued the store calls [T], all of them
    reads; the store, the clock and the data directory are as they were. *)
Definition polled (w w' : World) (T : list Event) : Prop :=
  stg w' = stg w ∧ now w' = now w ∧ tick w' = tick w ∧ dbdir w' = dbdir w ∧
  trace w' = trace w ++ T ∧ Forall is_read T.

(** From [w] to [w'] the node issued the store calls [T], all of them
    reads, while the peers and the clock moved on. *)
Definition waited (w w' : World) (T : list Event) : Prop :=
  dbdir w' = dbdir w ∧ trace w' = trace w ++ T ∧ Forall is_read T.

(** Only the map at [m] may have changed, and no map was created. *)
Definition heap_frame (m : loc) (w w' : World) : Prop :=
  length (heap w') = length (heap w) ∧
  ∀ l, l ≠ m → heap w' !! l = heap w !! l.

Section Vocabulary.

Context `{GoPath}.

(** The wait saw the awaited object [f] at [status] (or, when waiting for
    [done], at [partlyDone]): the stat of the status object succeeded. *)
Definition reached (status : Status) (T : list Event) (f : string) : Prop :=
  EvStat (f +:+ "." +:+ status) None ∈ T ∨
  (status = StatusDone ∧ EvStat (f +:+ "." +:+ StatusPartlyDone) None ∈ T).

(** The wait gave up on [f]: its error object was there, or its heartbeat
    was consulted and found wanting. *)
Definition dropped (T : list Event) (f : string) : Prop :=
  EvStat (f +:+ "." +:+ StatusError) None ∈ T ∨
  ∃ res, EvStat (f +:+ "." +:+ syncHbSuffix) res ∈ T.

Definition settled (status : Status) (T : list Event) (f : string) : Prop :=
  reached status T f ∨ (status = StatusDone ∧ dropped T f).

(** [ce] is the error recorded for the peer [f]: the body of its error
    object as a [nodeErr], or the wrapped result of [checkHB]. *)
Definition peer_error (f : string) (ce : error) : Prop :=
  (∃ b, ce = ErrNode (filepath_Base f) b) ∨
  (∃ e, ce = ErrWrap e ("check heartbeat in " +:+ f +:+ "." +:+ syncHbSuffix)).

(** [ce] reports a failed store call made while polling [f]. *)
Definition storage_fault (status : Status) (f : string) (ce : error) : Prop :=
  ∃ e msg, ce = ErrWrap e msg ∧
    msg ∈ [ "get file " +:+ f +:+ "." +:+ StatusError;
            "open error file " +:+ f +:+ "." +:+ StatusError;
            "read error file " +:+ f +:+ "." +:+ StatusError;
            "check file " +:+ f +:+ "." +:+ status;
            "check file " +:+ f +:+ "." +:+ StatusPartlyDone ].

(** The heartbeat object [file] exists and records the timestamp [t]. *)
Definition hb_recorded (w : World) (file : string) (t : Z) : Prop :=
  ∃ b, stg w !! file = Some (Data b) ∧ b ≠ "" ∧ ParseInt (TrimSpace b) = Some t.

(** The heartbeat object [file] does not exist. *)
Definition hb_missing (w : World) (file : string) : Prop :=
  stat_result (stg w !! file) = Some (ErrVar ErrNotExist).

(** [checkHB] declares the peer stuck. *)
Definition declared_stuck (r : PhysRestore) (file : string) (w : World) : Prop :=
  ∃ t, (checkHB r file w).1 = Some (stuck t).

(** What one iteration of the loop over the awaited objects does. *)
Definition waitFile_post (status : Status) (objs : loc) (f : string) (s : wstate)
    (w : World) (res : flow) (w' : World) (T : list Event) : Prop :=
  match res with
  | Return st e =>
      heap w' = heap w ∧ st = StatusError ∧
      ∃ ce, e = Some ce ∧
        (storage_fault status f ce ∨ (status ≠ StatusDone ∧ peer_error f ce))
  | Continue s' =>
      (heap w' = heap w ∧ s' = s) ∨
      (heap w' = <[objs := map_get objs w ∖ {[f]}]> (heap w) ∧
       ((reached status T f ∧ haveDone s' = true ∧ curErr s' = curErr s ∧
         (retStatus s' = retStatus s ∨
          status = StatusDone ∧ retStatus s' = StatusPartlyDone)) ∨
        (status = StatusDone ∧ dropped T f ∧ haveDone s' = haveDone s ∧
         retStatus s' = retStatus s ∧
         ∃ ce, curErr s' = Some ce ∧ peer_error f ce)))
  end.

(** The invariant of a wait for [status] over the objects [objs0], of which
    [rest] are still awaited, after the store calls [T], with the loop
    variables [s]. *)
Definition wait_inv (status : Status) (objs0 rest : gset string)
    (T : list Event) (s : wstate) : Prop :=
  rest ⊆ objs0 ∧
  (retStatus s = status ∨ status = StatusDone ∧ retStatus s = StatusPartlyDone) ∧
  (∀ f, f ∈ objs0 → f ∉ rest → settled status T f) ∧
  (curErr s = None → ∀ f, f ∈ objs0 → f ∉ rest → reached status T f) ∧
  (haveDone s = true → ∃ f, f ∈ objs0 ∧ reached status T f) ∧
  (haveDone s = false → ∀ f, f ∈ objs0 → f ∉ rest → dropped T f) ∧
  (∀ ce, curErr s = Some ce →
     status = StatusDone ∧ ∃ f, f ∈ objs0 ∧ peer_error f ce ∧ dropped T f).

(** The way a wait ends early: a store call failed, or (for a status
    other than [done]) a peer reported an error or was found stuck. *)
Definition wait_abort (status : Status) (objs0 : gset string)
    (res : Status * option error) : Prop :=
  res.1 = StatusError ∧
  ∃ ce f, f ∈ objs0 ∧ res.2 = Some ce ∧
    (storage_fault status f ce ∨ (status ≠ StatusDone ∧ peer_error f ce)).

(** A completed wait for [status] on the objects [objs0]: the store calls
    [T] are reads, the result [c] is [status] (or [partlyDone] for a wait
    for [done]), every awaited object was settled, and was seen at the
    awaited status unless this is a replica-set wait for [done]. *)
Definition polls (status : Status) (cluster : bool) (objs0 : gset string)
    (T : list Event) (c : Status) : Prop :=
  Forall is_read T ∧
  (c = status ∨ status = StatusDone ∧ c = StatusPartlyDone) ∧
  (∀ f, f ∈ objs0 → settled status T f) ∧
  (cluster = true ∨ status ≠ StatusDone → ∀ f, f ∈ objs0 → reached status T f).

(** The maps the receiver holds are allocated. *)
Definition valid_maps (r : PhysRestore) (w : World) : Prop :=
  (syncPathPeers r < length (heap w))%nat ∧
  (syncPathShards r < length (heap w))%nat.

(** Every map of [w] is still there, unchanged, in [w']. *)
Definition heap_ext (w w' : World) : Prop :=
  ∀ l, (l < length (heap w))%nat → heap w' !! l = heap w !! l.

(** The common shape of the two leader blocks of [toState]. *)
Definition stage (E : Env) (fuel : nat) (r : PhysRestore) (status : Status)
    (cond : bool) (m : loc) (cluster : bool) (path msg : string) : MF (option error) :=
  if cond then
    let? cp := lift (copyMap m) in
    let? (cstat, err) := waitFiles E fuel r status cp cluster in
    match err with
    | Some e => retF (Some (ErrWrap e msg))
    | None =>
        let? err := lift (saveStatus path cstat) in
        retF (errors_Wrap err "write replset state")
    end
  else retF None.

(** [c] is a status [toState] publishes when it moves to [status]. *)
Definition published (status c : Status) : Prop :=
  c = status ∨ status = StatusDone ∧ c = StatusPartlyDone.

(** Every object written during [T] is one of [names]. *)
Definition writes_within (T : list Event) (names : string → Prop) : Prop :=
  ∀ name body x, EvSave name body x ∈ T → names name.

(** The objects [toState] may write when it moves to [status]: the three
    status objects and, for a status other than [done], the error objects
    of the replica set and of the cluster. *)
Definition toState_names (r : PhysRestore) (status : Status) (name : string) : Prop :=
  name = syncPathNode r +:+ "." +:+ status ∨
  (∃ c, published status c ∧
     (name = syncPathRS r +:+ "." +:+ c ∨ name = syncPathCluster r +:+ "." +:+ c)) ∨
  (status ≠ StatusDone ∧
     (name = syncPathRS r +:+ "." +:+ StatusError ∨
      name = syncPathCluster r +:+ "." +:+ StatusError)).

(** The store calls of a [toState] that returned without error: the node's
    status object is written first; then, in the replica-set block, a wait
    on the peers and the write of the replica set's status; then, in the
    cluster block, a wait on the replica sets and the write of the
    cluster's status; last a wait on the cluster's status object, whose
    result [st] is returned. *)
Definition toState_calls (r : PhysRestore) (status : Status)
    (peers shards : gset string) (T : list Event) (st : Status) : Prop :=
  let rsBlock := IsPrimary (nodeInfo r) || bool_decide (status = StatusDone) in
  let clBlock := IsClusterLeader (nodeInfo r) || bool_decide (status = StatusDone) in
  ∃ b0 T1 c1 b1 T2 c2 b2 T3,
    T = [EvSave (syncPathNode r +:+ "." +:+ status) b0 None]
        ++ (if rsBlock
            then T1 ++ [EvSave (syncPathRS r +:+ "." +:+ c1) b1 None] else [])
        ++ (if clBlock
            then T2 ++ [EvSave (syncPathCluster r +:+ "." +:+ c2) b2 None] else [])
        ++ T3 ∧
    (rsBlock = true → polls status false peers T1 c1) ∧
    (clBlock = true → polls status true shards T2 c2) ∧
    polls status true {[syncPathCluster r]} T3 st.


End Vocabulary.



(** ** Vocabulary of the planner and of the copy *)

Section PlanVocabulary.

Context `{GoPath} `{Outside}.

(** The files of a section that go into a frame: the name is a target
    name, offset and length are not negative. *)
Definition emit (T : gset string) (f : File) : Prop :=
  Name f ∈ T ∧ 0 ≤ Off f ∧ 0 ≤ Len f.

#[global] Instance emit_dec T f : Decision (emit T f).
Proof. unfold emit. apply _. Defined.

(** The [dbpath] recorded on a frame: the first non-empty prefix that
    [findDBpath] finds on a file of the frame. *)
Definition frame_dbpath (data : list File) : string :=
  default "" (head (filter (λ p, p ≠ "") ((λ f, (findDBpath (Name f)).2) <$> data))).

(** The frame of the backup [b], whose section for this replica set is
    [rs], given the target names [T]. *)
Definition frame_of (T : gset string) (b : BackupMeta) (rs : BackupReplset) : files :=
  let data := filter (emit T) (section_files rs) in
  mkFiles (bcpName b) (Compression b) data (frame_dbpath data).

(** [l] is the chain of backups from [b], with its section [rs], back to
    the first backup without source; every source is found and has a
    section for the replica set. *)
Fixpoint is_chain (db : Db) (setName : string) (b : BackupMeta) (rs : BackupReplset)
    (l : list (BackupMeta * BackupReplset)) : Prop :=
  match l with
  | [] => False
  | (b0, rs0) :: l' =>
      b0 = b ∧ rs0 = rs ∧
      if decide (SrcBackup b = "") then l' = []
      else ∃ b' rs', GetBackupMeta db (SrcBackup b) = (Some b', None) ∧
             getRS b' setName = Some rs' ∧ is_chain db setName b' rs' l'
  end.

(** The name [n] is the name of a file of one of the frames. *)
Definition emitted (frames : list files) (n : string) : Prop :=
  ∃ fr f, fr ∈ frames ∧ f ∈ fData fr ∧ Name f = n.

(** The entries of the directory-only frame: each stands for a target name
    that no frame has and whose parent directory is not [.]; no two have
    the same parent directory; every such parent directory has its entry. *)
Definition dirs_ok (T : gset string) (frames : list files) (dirs : list File) : Prop :=
  (∀ d, d ∈ dirs →
     Off d = -1 ∧ Len d = -1 ∧ Size d = -1 ∧
     Name d ∈ T ∧ ¬ emitted frames (Name d) ∧ path_Dir (Name d) ≠ ".") ∧
  NoDup ((λ d, path_Dir (Name d)) <$> dirs) ∧
  (∀ n, n ∈ T → ¬ emitted frames n → path_Dir n ≠ "." →
     ∃ d, d ∈ dirs ∧ path_Dir (Name d) = path_Dir n).

(** The plan [setBcpFiles] adds to [r.files]: one frame per backup of the
    chain, then the directory-only frame if it has entries. *)
Definition plan_of (T : gset string) (chain : list (BackupMeta * BackupReplset))
    (dirs : list File) : list files :=
  ((λ p, frame_of T p.1 p.2) <$> chain)
  ++ (match dirs with [] => [] | _ => [mkFiles bcpDir "" dirs ""] end).

End PlanVocabulary.

Section CopyVocabulary.

Context `{GoPath} `{Outside}.

(** The object a file descriptor is read from:
    [<backup>/<replset>/<name><codec-suffix>], with the range suffix
    [.<Off>-<Len>] exactly when [Len] is not zero. *)
Definition src_path (setName : string) (set : files) (f : File) : string :=
  let base := filepath_Join [BcpName set; setName; Name f +:+ Suffix (Cmpr set)] in
  if decide (Len f = 0) then base
  else base +:+ "." +:+ itoa (Off f) +:+ "-" +:+ itoa (Len f).

(** The file it is written to: under the data directory, the name without
    the [dbpath] prefix recorded on the frame. *)
Definition dst_path (r : PhysRestore) (set : files) (f : File) : string :=
  filepath_Join [dbpath r;
                 if decide (fdbpath set = "") then Name f
                 else TrimPrefix (Name f) (fdbpath set)].

(** What is done for one file descriptor: the directories of the
    destination are created; for a directory-only frame that is all;
    otherwise the source is opened and decompressed, the destination is
    opened, positioned at [Off] exactly when [Off] is not zero, written,
    and cut to [Size] exactly when [Size] is not zero. *)
Definition file_plan (r : PhysRestore) (setName : string) (set : files) (f : File)
    : list FsOp :=
  let src := src_path setName set f in
  let dst := dst_path r set f in
  MkdirAll (filepath_Dir dst) ::
  (if decide (BcpName set = bcpDir) then []
   else [ReadSrc src; Decompress src (Cmpr set); OpenDst dst (Fmode f)]
        ++ (if decide (Off f = 0) then [] else [Seek dst (Off f)])
        ++ [Copy src dst]
        ++ (if decide (Size f = 0) then [] else [Truncate dst (Size f)])).

(** The whole copy: the frames in the reverse of the order in which the
    planner emitted them, the files of a frame in their order. *)
Definition copy_plan (r : PhysRestore) : list FsOp :=
  let setName := mapRevRS (SetName (nodeInfo r)) in
  flat_map (λ set, flat_map (file_plan r setName set) (fData set)) (rev (rfiles r)).

(** Carrying out a plan: the calls up to and including the first that
    fails, and that call with its error. *)
Fixpoint perform (fails : FsOp → option error) (plan : list FsOp)
    : list FsOp * option (FsOp * error) :=
  match plan with
  | [] => ([], None)
  | op :: plan' =>
      match fails op with
      | Some e => ([op], Some (op, e))
      | None => let '(ops, res) := perform fails plan' in (op :: ops, res)
      end
  end.

(** [res] is what [copyFiles] returns for the outcome [out] of a plan. *)
Definition copy_result (out : option (FsOp * error)) (res : option error) : Prop :=
  match out with
  | None => res = None
  | Some (_, e) => ∃ msg, res = Some (ErrWrap e msg)
  end.

End CopyVocabulary.

(** ** Vocabulary of the local restore *)

(** [n] is the name of an error status object: it ends in [.error]. *)
Definition error_object (n : string) : bool := HasSuffix n ("." +:+ StatusError).

(** The heartbeat objects of a node. *)
Definition hb_names (r : PhysRestore) (n : string) : Prop :=
  n = syncPathNode r +:+ "." +:+ syncHbSuffix ∨
  n = syncPathRS r +:+ "." +:+ syncHbSuffix ∨
  n = syncPathCluster r +:+ "." +:+ syncHbSuffix.

(** The error objects [MarkFailed] writes besides the node's own: the
    replica set's if the node is the primary, the cluster's if it is the
    cluster leader. *)
Definition leader_errors (r : PhysRestore) (n : string) : Prop :=
  (IsPrimary (nodeInfo r) = true ∧ n = syncPathRS r +:+ "." +:+ StatusError) ∨
  (IsClusterLeader (nodeInfo r) = true ∧ n = syncPathCluster r +:+ "." +:+ StatusError).

(** [r'] is [r] as far as the node, its storage, its data directory and
    its rendezvous paths go. *)
Definition same_node (r r' : PhysRestore) : Prop :=
  nodeInfo r' = nodeInfo r ∧ stgSet r' = stgSet r ∧ dbpath r' = dbpath r ∧
  name r' = name r ∧
  syncPathNode r' = syncPathNode r ∧ syncPathNodeStat r' = syncPathNodeStat r ∧
  syncPathRS r' = syncPathRS r ∧ syncPathCluster r' = syncPathCluster r.

(** Every entry of the directory listing [d'] is one of [d]. *)
Definition entries_of (d' d : list string) : Prop := ∀ x, x ∈ d' → x ∈ d.

(** The directory holds nothing but the log of the restore. *)
Definition wiped (d : list string) : Prop := ∀ x, x ∈ d → x = internalMongodLog.

Section RestoreVocabulary.

Context `{GoPath} `{Outside}.

(** The backup [b] fails a compatibility check of [prepareBackup] (its
    status, the version of PBM that made it, the version of MongoDB it was
    taken from), for which [prepareBackup] returns [e]. *)
Definition incompatible (db : Db) (b : BackupMeta) (e : error) : Prop :=
  (bcpStatus b ≠ StatusDone ∧
   e = ErrNew ("backup wasn't successful: status: " +:+ bcpStatus b
               +:+ ", error: " +:+ bcpErr b)) ∨
  (bcpStatus b = StatusDone ∧
   CompatibleWith (PBMVersion b) (BreakingChangesMap (bcpType b)) = false ∧
   e = ErrNew ("backup version (v" +:+ PBMVersion b
               +:+ ") is not compatible with PBM v" +:+ pbmVersion)) ∨
  (bcpStatus b = StatusDone ∧
   CompatibleWith (PBMVersion b) (BreakingChangesMap (bcpType b)) = true ∧
   ∃ v, GetMongoVersion db = inl v ∧ (1 ≤ length (Version v))%nat ∧
     semver_Compare (majmin (MongoVersion b)) (majmin (VersionString v)) ≠ 0 ∧
     e = ErrNew ("backup's Mongo version (" +:+ MongoVersion b
                 +:+ ") is not compatible with Mongo " +:+ VersionString v)).

End RestoreVocabulary.

(** Membership in a trace assembled with [++] and [::]. *)
Ltac mem :=
  solve [ eassumption
        | apply list_elem_of_here
        | apply list_elem_of_further; mem
        | apply elem_of_app; left; mem
        | apply elem_of_app; right; mem ].
(** * A small cluster to run the model on *)

Module Example.

(** An implementation of the path functions for clean, slash-separated
    paths without [.] and [..] elements. *)
Definition Dir (p : string) : string :=
  match LastSlash p with
  | Some O => "/"
  | Some i => slice p 0 i
  | None => "."
  end.

Definition Base (p : string) : string :=
  match (path_Split p).2 with "" => "." | b => b end.

Fixpoint Join (l : list string) : string :=
  match l with
  | [] => ""
  | "" :: l' => Join l'
  | s :: l' =>
      match Join l' with
      | "" => s
      | t => if HasPrefix t "/" then s +:+ t else s +:+ "/" +:+ t
      end
  end.

Definition is_space (c : Ascii.ascii) : bool :=
  let n := Ascii.nat_of_ascii c in
  (Nat.eqb n 32 || (Nat.leb 9 n && Nat.leb n 13))%bool.

Fixpoint trim_left (s : string) : string :=
  match s with
  | String c s' => if is_space c then trim_left s' else s
  | EmptyString => s
  end.

Definition Trim (s : string) : string :=
  rev_string (trim_left (rev_string (trim_left s))).

Definition paths : GoPath := {|
  path_Dir := Dir;
  filepath_Dir := Dir;
  filepath_Base := Base;
  filepath_Join := Join;
  TrimSpace := Trim;
|}.

(** Five seconds pass between two ticks, the peers write nothing more, and
    [range] goes through the keys in the order of [elements]. *)
Definition quiet : Env := {|
  env_step := λ _ st, (st.1, st.2 + 5);
  range_order := λ _ s, elements s;
|}.

Definition node1 : NodeInfo := {|
  Me := "n1:27017"; SetName := "rs0";
  IsPrimary := true; IsLeader := true; IsClusterLeader := true; IsConfigSrv := false;
|}.

Definition node2 : NodeInfo := {|
  Me := "n2:27017"; SetName := "rs0";
  IsPrimary := false; IsLeader := false; IsClusterLeader := false; IsConfigSrv := false;
|}.

Definition root : string := ".pbm.restore/r1".
Definition peer1 : string := root +:+ "/rs.rs0/node.n1:27017".
Definition peer2 : string := root +:+ "/rs.rs0/node.n2:27017".
Definition rs0 : string := root +:+ "/rs.rs0/rs".
Definition cluster : string := root +:+ "/cluster".

(** The restore object of a node after [init] and [prepareBackup]. *)
Definition restore_of (n : NodeInfo) (node : string) : PhysRestore := {|
  nodeInfo := n;
  rsConfID := "rs0";
  rsMembers := [("n1:27017", false); ("n2:27017", false)];
  dbpath := "/data/db";
  startTS := 1000;
  name := "r1";
  bcp := None;
  rfiles := [];
  tmpConf := false;
  stgSet := true;
  stopHB := true;
  syncPathNode := node;
  syncPathNodeStat := root +:+ "/rs.rs0/stat.n1:27017";
  syncPathRS := rs0;
  syncPathCluster := cluster;
  syncPathPeers := 0%nat;
  syncPathShards := 1%nat;
  syncPathDataShards := 2%nat;
|}.

Definition r1 : PhysRestore := restore_of node1 peer1.
Definition r2 : PhysRestore := restore_of node2 peer2.

Definition heap0 : list (gset string) := [ {[peer1; peer2]}; {[rs0]}; ∅ ].

Definition world_of (s : gmap string fobj) (t : Z) : World := {|
  stg := s; now := t; tick := 0; heap := heap0; trace := [];
  dbdir := ["WiredTiger"; "collection-0.wt"; "journal"; "mongod.lock"];
|}.

(** The second node has already moved to [starting]; all heartbeats are
    fresh. *)
Definition store1 : gmap string fobj :=
  <[peer2 +:+ ".starting" := Data "1001"]>
  (<[peer1 +:+ ".hb" := Data "1000"]>
  (<[peer2 +:+ ".hb" := Data "1000"]>
  (<[rs0 +:+ ".hb" := Data "1000"]>
  (<[cluster +:+ ".hb" := Data "1000"]> ∅)))).

Definition w1 : World := world_of store1 1002.

(** The code outside the excerpt, in a simple form: no renaming of replica
    sets, a dot and the codec as suffix, versions compared as strings. *)
Definition MajorMinor (v : string) : string :=
  match Cut v "." with
  | Some (a, rest) =>
      match Cut rest "." with
      | Some (b, _) => a +:+ "." +:+ b
      | None => v
      end
  | None => v
  end.

Definition outside : Outside := {|
  mapRevRS := λ rs, rs;
  Suffix := λ c, if decide (c = "") then "" else "." +:+ c;
  CompatibleWith := λ v breaking, bool_decide (v ∉ breaking);
  BreakingChangesMap := λ _, ["1.5.0"];
  pbmVersion := "2.0.3";
  semver_Compare := λ a b, if decide (a = b) then 0 else 1;
  semver_MajorMinor := MajorMinor;
|}.

(** A base backup and an incremental one on top of it; [db1/coll-9.wt] is
    listed by the incremental backup but has no data in either. *)
Definition file (n : string) (off len size : Z) : File := mkFile n off len size 0 420.

Definition base_rs : BackupReplset := {|
  rsName := "rs0";
  Journal := [file "journal/WiredTigerLog.1" 0 0 100];
  Files := [file "collection-7.wt" 0 0 4096; file "index-1.wt" 0 0 2048;
            file "old.wt" 0 0 512];
  MongodOpts := None;
|}.

Definition incr_rs : BackupReplset := {|
  rsName := "rs0";
  Journal := [file "journal/WiredTigerLog.2" 0 0 100];
  Files := [file "collection-7.wt" 1024 512 4096; file "index-1.wt" (-1) (-1) 2048;
            file "db1/coll-9.wt" (-1) (-1) 0];
  MongodOpts := None;
|}.

Definition backup (nm src : string) (st : Status) (rs : list BackupReplset) : BackupMeta := {|
  bcpType := "incremental"; bcpName := nm; SrcBackup := src; Replsets := rs;
  Compression := "s2"; MongoVersion := "6.0.4"; bcpStatus := st; bcpErr := "";
  PBMVersion := "2.0.3";
|}.

Definition base : BackupMeta := backup "b1" "" StatusDone [base_rs].
Definition incr : BackupMeta := backup "b2" "b1" StatusDone [incr_rs].
(** a backup that did not succeed, and one without a section for [rs0] *)
Definition failed : BackupMeta := backup "b3" "" StatusError [base_rs].
Definition other : BackupMeta :=
  backup "b4" "" StatusDone
    [{| rsName := "cfg"; Journal := []; Files := []; MongodOpts := None |}].

Definition db : Db := {|
  GetBackupMeta := λ nm,
    if decide (nm = "b1") then (Some base, None)
    else if decide (nm = "b2") then (Some incr, None)
    else if decide (nm = "b3") then (Some failed, None)
    else if decide (nm = "b4") then (Some other, None)
    else (None, Some (ErrVar ErrNotFound));
  GetMetaFromStore := λ _, (None, Some (ErrVar ErrNotExist));
  SetRestoreBackup := None;
  GetMongoVersion := inl {| VersionString := "6.0.4"; Version := [6; 0; 4] |};
  mongodVersion := inl ("db version v6.0.4" +:+ newline +:+ "Build Info: {}");
  ClusterMembers := inl [{| shardID := "rs0"; shardRS := "rs0"; shardHost := "rs0/n1:27017" |};
                         {| shardID := "cfg"; shardRS := "cfg"; shardHost := "cfg/c1:27017" |}];
  rangeFiles := map_to_list;
|}.

(** A machine on which every local step works. *)
Definition machine : Local := {|
  GetConfig := None; GetStorage := None; GetShards := inl [];
  CreateTemp := None; encodeConf := None; closeConf := None; syncConf := None;
  GetReplsetStatus := inl 2%nat;
  GetInfo := λ _, inl false;
  Shutdown := None;
  lockStat := λ _, inl 0;
  openDir := None; readDir := None;
  rm_fails := λ _, None;
  copy_fails := λ _, None;
  step_fails := λ _, None;
  dir_after := λ s d,
    match s with
    | StepCopy => d ++ ["WiredTiger"; "collection-7.wt"; "index-1.wt"; "journal"; "db1"]
    | _ => d
    end;
  statBody := "{}";
  encodeMeta := None;
  metaBody := "{}";
|}.

(** The same machine without access to the configuration. *)
Definition no_config : Local := {|
  GetConfig := Some (ErrNew "connection refused");
  GetStorage := None; GetShards := inl [];
  CreateTemp := None; encodeConf := None; closeConf := None; syncConf := None;
  GetReplsetStatus := inl 2%nat;
  GetInfo := λ _, inl false;
  Shutdown := None;
  lockStat := λ _, inl 0;
  openDir := None; readDir := None;
  rm_fails := λ _, None;
  copy_fails := λ _, None;
  step_fails := λ _, None;
  dir_after := λ _ d, d;
  statBody := "{}";
  encodeMeta := None;
  metaBody := "{}";
|}.

(** The same machine on which the second boot of the database fails. *)
Definition bad_boot : Local := {|
  GetConfig := None; GetStorage := None; GetShards := inl [];
  CreateTemp := None; encodeConf := None; closeConf := None; syncConf := None;
  GetReplsetStatus := inl 2%nat;
  GetInfo := λ _, inl false;
  Shutdown := None;
  lockStat := λ _, inl 0;
  openDir := None; readDir := None;
  rm_fails := λ _, None;
  copy_fails := λ _, None;
  step_fails := λ s, match s with StepRecover => Some (ErrNew "start mongo") | _ => None end;
  dir_after := λ s d,
    match s with
    | StepCopy => d ++ ["WiredTiger"; "collection-7.wt"; "index-1.wt"; "journal"; "db1"]
    | _ => d
    end;
  statBody := "{}";
  encodeMeta := None;
  metaBody := "{}";
|}.

(** The restore object as [NewPhysical] returns it. *)
Definition fresh (n : NodeInfo) : PhysRestore := {|
  nodeInfo := n;
  rsConfID := "rs0";
  rsMembers := [("n1:27017", false); ("n2:27017", false); ("arb:27017", true)];
  dbpath := "/data/db";
  startTS := 0;
  name := "";
  bcp := None;
  rfiles := [];
  tmpConf := false;
  stgSet := false;
  stopHB := false;
  syncPathNode := "";
  syncPathNodeStat := "";
  syncPathRS := "";
  syncPathCluster := "";
  syncPathPeers := 0%nat;
  syncPathShards := 0%nat;
  syncPathDataShards := 0%nat;
|}.

(** The other node and the config server replica set have moved through
    every status already. *)
Definition cfg : string := root +:+ "/rs.cfg/rs".

Definition store2 : gmap string fobj :=
  list_to_map
    ((λ n, (n, Data "1001")) <$>
       [peer2 +:+ ".starting"; peer2 +:+ ".running"; peer2 +:+ ".done"; peer2 +:+ ".hb";
        cfg +:+ ".starting"; cfg +:+ ".running"; cfg +:+ ".done"; cfg +:+ ".hb"]).

Definition w2 : World := {|
  stg := store2; now := 1002; tick := 0; heap := []; trace := [];
  dbdir := ["WiredTiger"; "collection-0.wt"; "journal"; "mongod.lock"; "pbm.restore.log"];
|}.

Definition cmd (bcp : string) : RestoreCmd := {| cmdName := "r1"; cmdBackupName := bcp |}.

Definition agent (n : NodeInfo) : AgentEnv := {|
  agentGetInfo := inl n;
  newPhysical := inl (fresh n);
  acquireLock := (true, None);
|}.

(** The world after the first node has moved to [starting]. *)
Definition w1_after : World :=
  match toState (H:=paths) quiet 3 r1 StatusStarting w1 with
  | Some (_, w) => w
  | None => w1
  end.



(** The heartbeat of the second node is 1000 s old. *)
Definition w_late : World := world_of store1 2000.

(** The restore object with the incremental backup as its target. *)
Definition r_incr : PhysRestore := set_bcp (Some incr) (fresh node1).

Definition r_planned : PhysRestore :=
  match setBcpFiles (H:=paths) (H0:=outside) db 5 r_incr with
  | Some (Done (r, _)) => r
  | _ => r_incr
  end.

End Example.
(** * Properties *)

(** ** Heartbeat staleness *)

Lemma wrap64_id z : min_int64 ≤ z ≤ max_int64 → wrap64 z = z.
Proof.
  unfold min_int64, max_int64, wrap64. intros Hz.
  rewrite Z.mod_small; lia.
Qed.

Lemma ParseInt_int64 s z : ParseInt s = Some z → min_int64 ≤ z ≤ max_int64.
Proof.
  unfold ParseInt. destruct s as [|c s']; [done|].
  destruct (if Ascii.eqb c "+" then _ else _) as [neg ds].
  destruct ds; [done|].
  destruct (parse_digits _ _) as [n|]; [|done].
  destruct (in_int64 _) eqn:Hr; [|done].
  intros [= <-]. unfold in_int64 in Hr.
  apply andb_true_iff in Hr as [?%Z.leb_le ?%Z.leb_le]. done.
Qed.

Section Heartbeat.

Context `{GoPath}.


Lemma stuck_not_wrap t e msg : Some (ErrWrap e msg) ≠ Some (stuck t).
Proof. done. Qed.

Lemma checkHB_stuck_wrapped r file w :
  declared_stuck r file w ↔
    (∃ t, hb_recorded w file t ∧ add64 t (2 * hbFrameSec) < now w) ∨
    (hb_missing w file ∧ add64 (startTS r) (2 * hbFrameSec) < now w).
Proof.
  unfold declared_stuck, hb_recorded, hb_missing, checkHB, bind, Now, FileStat,
    SourceReader, ReadAll, ret.
  replace (hbFrameSec * 2) with (2 * hbFrameSec) by done.
  destruct (stg w !! file) as [[b|e|e|e|e]|] eqn:Hf; cbn;
    repeat (first
      [ rewrite Hf
      | case_decide
      | match goal with
        | |- context [ParseInt ?s] => destruct (ParseInt s) eqn:?
        | |- context [?a <? ?b] => destruct (Z.ltb_spec a b)
        end ]; cbn);
    (split;
     [ intros [t' Ht']; simplify_eq; eauto 10
     | try (intros [(t' & (b' & ? & ? & ?) & ?)|[? ?]]; simplify_eq; eauto; lia) ]).
Qed.

(** C9. [checkHB] declares a peer stuck exactly when the heartbeat object
    exists and its recorded timestamp [t] satisfies [t + 240 < now], or the
    object does not exist and [startTS + 240 < now]; 240 s is twice the
    heartbeat period [hbFrameSec] of 120 s. The additions are the code's
    [int64] additions; they are the mathematical ones for every timestamp
    up to [max_int64 - 240]. *)
Theorem checkHB_stuck_iff (r : PhysRestore) (file : string) (w : World) :
  hbFrameSec = 120 ∧ 2 * hbFrameSec = 240 ∧
  (declared_stuck r file w ↔
     (∃ t, hb_recorded w file t ∧ add64 t 240 < now w) ∨
     (hb_missing w file ∧ add64 (startTS r) 240 < now w)) ∧
  (min_int64 ≤ startTS r ≤ max_int64 - 240 →
   (∀ t, hb_recorded w file t → t ≤ max_int64 - 240) →
   (declared_stuck r file w ↔
      (∃ t, hb_recorded w file t ∧ t + 240 < now w) ∨
      (hb_missing w file ∧ startTS r + 240 < now w))).
Proof.
  split; [done|]. split; [done|].
  pose proof (checkHB_stuck_wrapped r file w) as Hw.
  change (2 * hbFrameSec) with 240 in Hw.
  split; [exact Hw|]. intros Hs Ht. rewrite Hw.
  assert (add64 (startTS r) 240 = startTS r + 240) as ->.
  { apply wrap64_id. unfold min_int64, max_int64 in *. lia. }
  split.
  - intros [(t & Hrec & Hlt)|?]; [left|by right]. exists t. split; [done|].
    assert (add64 t 240 = t + 240) as <-; [|done].
    apply wrap64_id. specialize (Ht t Hrec).
    destruct Hrec as (b & _ & _ & Hp). apply ParseInt_int64 in Hp.
    unfold min_int64, max_int64 in *. lia.
  - intros [(t & Hrec & Hlt)|?]; [left|by right]. exists t. split; [done|].
    assert (add64 t 240 = t + 240) as ->; [|done].
    apply wrap64_id. specialize (Ht t Hrec).
    destruct Hrec as (b & _ & _ & Hp). apply ParseInt_int64 in Hp.
    unfold min_int64, max_int64 in *. lia.
Qed.

End Heartbeat.

(** ** Frame lemmas: what polling leaves alone *)

Lemma polled_refl w : polled w w [].
Proof. unfold polled. rewrite app_nil_r. by repeat split. Qed.

Lemma polled_trans w1 w2 w3 T1 T2 :
  polled w1 w2 T1 → polled w2 w3 T2 → polled w1 w3 (T1 ++ T2).
Proof.
  unfold polled. intros (?&?&?&?&?&?) (?&?&?&?&?&?).
  repeat split; try congruence.
  - rewrite app_assoc. congruence.
  - by apply Forall_app.
Qed.

Lemma polled_set_heap w w' T h : polled w w' T → polled w (set_heap h w') T.
Proof. done. Qed.

Section Frames.

Context `{GoPath}.

Lemma FileStat_polled name w res w' :
  FileStat name w = (res, w') →
  res = stat_result (stg w !! name) ∧ heap w' = heap w ∧ polled w w' [EvStat name res].
Proof. intros [= <- <-]. repeat split. by repeat constructor. Qed.

Lemma checkFile_polled f w ok err w' :
  checkFile f w = ((ok, err), w') →
  heap w' = heap w ∧ polled w w' [EvStat f (stat_result (stg w !! f))] ∧
  (ok = true → err = None ∧ stat_result (stg w !! f) = None) ∧
  (∀ e, err = Some e → ok = false).
Proof.
  unfold checkFile, bind. destruct (FileStat f w) as [res w1] eqn:Hs.
  apply FileStat_polled in Hs as (-> & Hh & Hp).
  destruct (stat_result (stg w !! f)) as [e|] eqn:Hst; [destruct (_ || _)|];
    intros [= <- <- <-]; (split; [done|]); (split; [done|]); split;
    try done; intros; simplify_eq.
Qed.

Lemma checkHB_polled r file w res w' :
  checkHB r file w = (res, w') →
  ∃ T, heap w' = heap w ∧ polled w w' T ∧
    EvStat file (stat_result (stg w !! file)) ∈ T.
Proof.
  unfold checkHB, bind, Now, SourceReader, ReadAll, ret.
  destruct (FileStat file w) as [st w1] eqn:Hs.
  apply FileStat_polled in Hs as (-> & Hh & Hp).
  intros Hrun.
  assert (w' = w1 ∨ ∃ x, w' = log_event (EvOpen file x) w1) as [->|[x ->]].
  { repeat case_match; simplify_eq; eauto. }
  - eexists. split; [done|]. split; [done|]. set_solver.
  - eexists. split; [done|]. split.
    + eapply polled_trans; [exact Hp|].
      instantiate (1 := [EvOpen file x]). repeat split. by repeat constructor.
    + set_solver.
Qed.

End Frames.

(** ** One awaited object, one pass, one wait *)


Section WaitFile.

Context `{GoPath}.

Lemma map_get_delete objs f w :
  map_get objs (set_heap (<[objs := map_get objs w ∖ {[f]}]> (heap w)) w)
  = map_get objs w ∖ {[f]}.
Proof.
  unfold map_get. simpl.
  destruct (decide (objs < length (heap w))%nat) as [Hlt|Hge].
  - by rewrite list_lookup_insert_eq.
  - rewrite list_insert_ge by lia.
    rewrite (lookup_ge_None_2 (heap w) objs) by lia. simpl. set_solver.
Qed.

Lemma SourceReader_polled name w rd w' :
  SourceReader name w = (rd, w') →
  heap w' = heap w ∧ ∃ x, polled w w' [EvOpen name x].
Proof. intros [= <- <-]. split; [done|]. eexists. repeat split. by repeat constructor. Qed.

Lemma waitFile_spec r status objs f s w res w' :
  waitFile r status objs f s w = (res, w') →
  ∃ T, polled w w' T ∧
    (∃ x, EvStat (f +:+ "." +:+ StatusError) x ∈ T) ∧
    waitFile_post status objs f s w res w' T.
Proof.
  unfold waitFile, bind, ReadAll, ret, map_delete.
  set (errFile := f +:+ "." +:+ StatusError).
  destruct (FileStat errFile w) as [err w1] eqn:Hs.
  apply FileStat_polled in Hs as (-> & Hh1 & Hp1).
  destruct (stat_result (stg w !! errFile)) as [e|] eqn:Hst.
  - destruct (bool_decide (e = ErrVar ErrNotExist)) eqn:He; simpl.
    2:{ intros [= <- <-]. eexists. split; [exact Hp1|]. split; [eexists; mem|].
        do 2 (split; [done|]). eexists. split; [done|]. left.
        do 2 eexists. split; [done|]. set_solver. }
    destruct (checkHB r (f +:+ "." +:+ syncHbSuffix) w1) as [herr w2] eqn:Hhb.
    apply checkHB_polled in Hhb as (T2 & Hh2 & Hp2 & Hin2).
    pose proof (polled_trans _ _ _ _ _ Hp1 Hp2) as Hp12.
    destruct herr as [he|].
    { destruct (bool_decide (status = StatusDone)) eqn:Hd; simpl; intros [= <- <-].
      - apply bool_decide_eq_true in Hd.
        eexists. split; [exact Hp12|]. split; [eexists; mem|]. right.
        split. { simpl. unfold map_get. by rewrite Hh2, Hh1. }
        right. split; [done|]. split; [right; eexists; mem|].
        do 2 (split; [done|]). eexists. split; [done|]. right. by eexists.
      - apply bool_decide_eq_false in Hd.
        eexists. split; [exact Hp12|]. split; [eexists; mem|].
        split; [congruence|]. split; [done|]. eexists. split; [done|].
        right. split; [done|]. right. by eexists. }
    destruct (checkFile (f +:+ "." +:+ status) w2) as [[ok cerr] w3] eqn:Hc.
    apply checkFile_polled in Hc as (Hh3 & Hp3 & Hok3 & Herr3).
    pose proof (polled_trans _ _ _ _ _ Hp12 Hp3) as Hp123.
    destruct cerr as [ce|].
    { intros [= <- <-]. eexists. split; [exact Hp123|]. split; [eexists; mem|].
      split; [congruence|]. split; [done|]. eexists. split; [done|]. left.
      do 2 eexists. split; [done|]. set_solver. }
    destruct ok.
    { intros [= <- <-]. destruct (Hok3 eq_refl) as [_ Hnone].
      eexists. split; [exact Hp123|]. split; [eexists; mem|]. right.
      split. { simpl. unfold map_get. by rewrite Hh3, Hh2, Hh1. }
      left. split; [|by eauto]. left. rewrite Hnone. mem. }
    destruct (bool_decide (status = StatusDone)) eqn:Hd; simpl.
    2:{ intros [= <- <-]. eexists. split; [exact Hp123|]. split; [eexists; mem|].
        left. split; [congruence|done]. }
    apply bool_decide_eq_true in Hd.
    destruct (checkFile (f +:+ "." +:+ StatusPartlyDone) w3) as [[ok cerr] w4] eqn:Hc.
    apply checkFile_polled in Hc as (Hh4 & Hp4 & Hok4 & Herr4).
    pose proof (polled_trans _ _ _ _ _ Hp123 Hp4) as Hp1234.
    destruct cerr as [ce|].
    { intros [= <- <-]. eexists. split; [exact Hp1234|]. split; [eexists; mem|].
      split; [congruence|]. split; [done|]. eexists. split; [done|]. left.
      do 2 eexists. split; [done|]. set_solver. }
    destruct ok; simpl; intros [= <- <-].
    + destruct (Hok4 eq_refl) as [_ Hnone].
      eexists. split; [exact Hp1234|]. split; [eexists; mem|]. right.
      split. { simpl. unfold map_get. by rewrite Hh4, Hh3, Hh2, Hh1. }
      left. split; [|by eauto 10]. right. split; [done|]. rewrite Hnone. mem.
    + eexists. split; [exact Hp1234|]. split; [eexists; mem|].
      left. split; [congruence|done].
  - destruct (SourceReader errFile w1) as [rd w2] eqn:Hrd.
    apply SourceReader_polled in Hrd as (Hh2 & x & Hp2).
    pose proof (polled_trans _ _ _ _ _ Hp1 Hp2) as Hp12.
    destruct rd as [[b|e]|e].
    + destruct (bool_decide (status = StatusDone)) eqn:Hd; simpl; intros [= <- <-].
      * apply bool_decide_eq_true in Hd.
        eexists. split; [exact Hp12|]. split; [eexists; mem|]. right.
        split. { simpl. unfold map_get. by rewrite Hh2, Hh1. }
        right. split; [done|]. split; [left; mem|].
        do 2 (split; [done|]). eexists. split; [done|]. left. by eexists.
      * apply bool_decide_eq_false in Hd.
        eexists. split; [exact Hp12|]. split; [eexists; mem|].
        split; [congruence|]. split; [done|]. eexists. split; [done|].
        right. split; [done|]. left. by eexists.
    + intros [= <- <-]. eexists. split; [exact Hp12|]. split; [eexists; mem|].
      split; [congruence|]. split; [done|]. eexists. split; [done|]. left.
      do 2 eexists. split; [done|]. set_solver.
    + intros [= <- <-]. eexists. split; [exact Hp12|]. split; [eexists; mem|].
      split; [congruence|]. split; [done|]. eexists. split; [done|]. left.
      do 2 eexists. split; [done|]. set_solver.
Qed.

End WaitFile.

Section WaitLoop.

Context `{GoPath}.

Lemma reached_mono status T T1 T2 f :
  reached status T f → reached status (T1 ++ T ++ T2) f.
Proof.
  unfold reached. rewrite !elem_of_app. naive_solver.
Qed.

Lemma dropped_mono T T1 T2 f : dropped T f → dropped (T1 ++ T ++ T2) f.
Proof.
  unfold dropped. intros [?|[x ?]]; [left|right; exists x];
    rewrite !elem_of_app; naive_solver.
Qed.

Lemma settled_mono status T T1 T2 f :
  settled status T f → settled status (T1 ++ T ++ T2) f.
Proof.
  intros [?|[? ?]]; [left; by apply reached_mono|right].
  split; [done|]. by apply dropped_mono.
Qed.

Lemma wait_inv_mono status objs0 rest T T' s :
  wait_inv status objs0 rest T s → wait_inv status objs0 rest (T ++ T') s.
Proof.
  intros (Hsub & Hret & Hset & Hnone & Hdone & Hnd & Herr).
  split_and!; [done|done|..].
  - intros f ??. apply (settled_mono _ _ [] T'). eauto.
  - intros ? f ??. apply (reached_mono _ _ [] T'). eauto.
  - intros Ht. destruct (Hdone Ht) as (f & ? & ?). exists f.
    split; [done|]. by apply (reached_mono _ _ [] T').
  - intros ? f ??. apply (dropped_mono _ [] T'). eauto.
  - intros ce Hce. destruct (Herr _ Hce) as (? & f & ? & ? & ?).
    split; [done|]. exists f.
    do 2 (split; [done|]). by apply (dropped_mono _ [] T').
Qed.

Lemma heap_frame_refl m w : heap_frame m w w.
Proof. by split. Qed.

Lemma heap_frame_trans m w1 w2 w3 :
  heap_frame m w1 w2 → heap_frame m w2 w3 → heap_frame m w1 w3.
Proof.
  intros [? H12] [? H23]. split; [congruence|].
  intros l ?. rewrite H23, H12; done.
Qed.

Lemma heap_frame_delete m (s : gset string) w w' :
  heap w' = <[m := s]> (heap w) → heap_frame m w w'.
Proof.
  intros Hh. unfold heap_frame. rewrite Hh. split; [by rewrite length_insert|].
  intros l ?. by rewrite list_lookup_insert_ne.
Qed.

Lemma heap_frame_eq m w w' : heap w' = heap w → heap_frame m w w'.
Proof. intros Hh. unfold heap_frame. by rewrite Hh. Qed.

Lemma map_get_heap m w w' : heap w' = heap w → map_get m w' = map_get m w.
Proof. unfold map_get. by intros ->. Qed.

Lemma map_get_deleted m f w w' :
  heap w' = <[m := map_get m w ∖ {[f]}]> (heap w) →
  map_get m w' = map_get m w ∖ {[f]}.
Proof.
  intros Hh. rewrite <- (map_get_delete m f w). unfold map_get. by rewrite Hh.
Qed.

(** One iteration keeps the invariant. *)
Lemma waitFile_inv r status objs objs0 f s w T0 res w' :
  f ∈ objs0 →
  wait_inv status objs0 (map_get objs w) T0 s →
  waitFile r status objs f s w = (res, w') →
  ∃ T, polled w w' T ∧ heap_frame objs w w' ∧
    map_get objs w' ⊆ map_get objs w ∧
    match res with
    | Continue s' => wait_inv status objs0 (map_get objs w') (T0 ++ T) s'
    | Return st e => wait_abort status objs0 (st, e)
    end.
Proof.
  intros Hf Hinv Hrun.
  destruct (waitFile_spec _ _ _ _ _ _ _ _ Hrun) as (T & Hp & _ & Hpost).
  exists T. split; [done|].
  destruct res as [s'|st e]; simpl in Hpost.
  - destruct Hpost as [[Hh ->]|[Hh Hcase]].
    + split; [by apply heap_frame_eq|].
      rewrite (map_get_heap _ _ _ Hh). split; [done|].
      by apply wait_inv_mono.
    + split; [by eapply heap_frame_delete|].
      rewrite (map_get_deleted _ _ _ _ Hh). split; [set_solver|].
      apply (wait_inv_mono _ _ _ _ T) in Hinv.
      destruct Hinv as (Hsub & Hret & Hset & Hnone & Hdone & Hnd & Herr).
      destruct Hcase as [(Hr & Hhd & Hce & Hrs)|(Hd & Hdr & Hhd & Hrs & ce & Hce & Hpe)].
      * assert (reached status (T0 ++ T) f) as Hr'.
        { apply (reached_mono _ _ T0 []) in Hr. by rewrite app_nil_r in Hr. }
        split_and!.
        -- set_solver.
        -- destruct Hrs as [->|[? ->]]; [done|by right].
        -- intros g Hg Hng. destruct (decide (g = f)) as [->|]; [by left|].
           apply Hset; set_solver.
        -- rewrite Hce. intros Hn g Hg Hng.
           destruct (decide (g = f)) as [->|]; [done|]. apply Hnone; set_solver.
        -- intros _. by exists f.
        -- rewrite Hhd. done.
        -- rewrite Hce. done.
      * assert (dropped (T0 ++ T) f) as Hdr'.
        { apply (dropped_mono _ T0 []) in Hdr. by rewrite app_nil_r in Hdr. }
        split_and!.
        -- set_solver.
        -- by rewrite Hrs.
        -- intros g Hg Hng. destruct (decide (g = f)) as [->|]; [by right|].
           apply Hset; set_solver.
        -- rewrite Hce. done.
        -- rewrite Hhd. done.
        -- rewrite Hhd. intros Hn g Hg Hng.
           destruct (decide (g = f)) as [->|]; [done|]. apply Hnd; set_solver.
        -- rewrite Hce. intros ? [= <-]. split; [done|]. by exists f.
  - destruct Hpost as (Hh & -> & ce & -> & Hc).
    split; [by apply heap_frame_eq|].
    rewrite (map_get_heap _ _ _ Hh). split; [done|].
    split; [done|]. by exists ce, f.
Qed.


(** One pass over the awaited objects keeps the invariant. *)
Lemma rangeObjs_inv r status objs objs0 ks : ∀ s w T0 res w',
  (∀ f, f ∈ ks → f ∈ objs0) →
  wait_inv status objs0 (map_get objs w) T0 s →
  rangeObjs r status objs ks s w = (res, w') →
  ∃ T, polled w w' T ∧ heap_frame objs w w' ∧
    map_get objs w' ⊆ map_get objs w ∧
    match res with
    | Continue s' => wait_inv status objs0 (map_get objs w') (T0 ++ T) s'
    | Return st e => wait_abort status objs0 (st, e)
    end.
Proof.
  induction ks as [|f ks IH]; intros s w T0 res w' Hks Hinv; simpl.
  - intros [= <- <-]. exists []. split; [apply polled_refl|].
    split; [apply heap_frame_refl|]. split; [done|]. by rewrite app_nil_r.
  - unfold bind. destruct (waitFile r status objs f s w) as [res1 w1] eqn:Hrun.
    eapply waitFile_inv in Hrun as (T1 & Hp1 & Hf1 & Hsub1 & Hres1);
      [|apply Hks; left|exact Hinv].
    destruct res1 as [s1|st e].
    + intros Hrest. eapply IH in Hrest as (T2 & Hp2 & Hf2 & Hsub2 & Hres2);
        [| intros; apply Hks; by right | exact Hres1].
      exists (T1 ++ T2). split; [by eapply polled_trans|].
      split; [by eapply heap_frame_trans|]. split; [set_solver|].
      destruct res; [|done]. by rewrite app_assoc.
    + intros [= <- <-]. exists T1. done.
Qed.

Lemma polled_waited w w' T : polled w w' T → waited w w' T.
Proof. intros (?&?&?&?&?&?). done. Qed.

Lemma waited_trans w1 w2 w3 T1 T2 :
  waited w1 w2 T1 → waited w2 w3 T2 → waited w1 w3 (T1 ++ T2).
Proof.
  intros (?&?&?) (?&?&?). split_and!; [congruence| |by apply Forall_app].
  rewrite app_assoc. congruence.
Qed.

Lemma next_tick_waited E w : waited w (next_tick E w).2 [] ∧ heap (next_tick E w).2 = heap w.
Proof.
  unfold next_tick. destruct (env_step _ _ _) as [s t]. simpl.
  split; [|done]. split_and!; [done| by rewrite app_nil_r | done].
Qed.

(** The polling loop keeps the invariant until it ends. *)
Lemma waitLoop_inv E r status objs cluster objs0 (HE : range_ok E) fuel :
  ∀ s w T0 res w',
  wait_inv status objs0 (map_get objs w) T0 s →
  waitLoop E fuel r status objs cluster s w = Some (res, w') →
  ∃ T, waited w w' T ∧ heap_frame objs w w' ∧
    ((∃ s', res = waitResult s' cluster ∧ map_get objs w' = ∅ ∧
            wait_inv status objs0 ∅ (T0 ++ T) s') ∨
     wait_abort status objs0 res).
Proof.
  induction fuel as [|fuel IH]; intros s w T0 res w' Hinv; [done|]. simpl.
  destruct (next_tick E w) as [[] w1] eqn:Htick.
  pose proof (next_tick_waited E w) as [Hw1 Hh1]. rewrite Htick in Hw1, Hh1. simpl in *.
  destruct (rangeObjs _ _ _ _ _ _) as [res2 w2] eqn:Hrange.
  eapply rangeObjs_inv in Hrange as (T2 & Hp2 & Hf2 & Hsub2 & Hres2); cycle 1.
  { intros f Hf. rewrite (HE _ _) in Hf. apply elem_of_elements in Hf.
    rewrite (map_get_heap _ _ _ Hh1) in Hf. destruct Hinv as [Hsub _]. by apply Hsub. }
  { rewrite (map_get_heap _ _ _ Hh1). exact Hinv. }
  assert (waited w w2 T2) as Hw2.
  { apply (waited_trans _ _ _ [] T2 Hw1). by apply polled_waited. }
  assert (heap_frame objs w w2) as Hf.
  { eapply heap_frame_trans; [|exact Hf2]. by apply heap_frame_eq. }
  destruct res2 as [s'|st e].
  - destruct (decide (size (map_get objs w2) = 0%nat)) as [Hz|Hnz].
    + intros [= <- <-]. exists T2. do 2 (split; [done|]). left. exists s'.
      split; [done|]. apply size_empty_inv in Hz. apply leibniz_equiv in Hz.
      split; [done|]. by rewrite Hz in Hres2.
    + intros Hrest. eapply IH in Hrest as (T3 & Hw3 & Hf3 & Hres3); [|exact Hres2].
      exists (T2 ++ T3). split; [by eapply waited_trans|].
      split; [by eapply heap_frame_trans|]. by rewrite app_assoc.
  - intros [= <- <-]. exists T2. do 2 (split; [done|]). by right.
Qed.

(** What a wait that has returned guarantees. *)
Lemma waitFiles_spec E r status objs cluster (HE : range_ok E) fuel w res w' :
  waitFiles E fuel r status objs cluster w = Some (res, w') →
  ∃ T, waited w w' T ∧ heap_frame objs w w' ∧
    ((map_get objs w = ∅ ∧ res = (StatusError, Some (ErrNew "empty objects maps"))) ∨
     (∃ s', res = waitResult s' cluster ∧ map_get objs w' = ∅ ∧
           wait_inv status (map_get objs w) ∅ T s') ∨
     wait_abort status (map_get objs w) res).
Proof.
  unfold waitFiles. destruct (decide (size (map_get objs w) = 0%nat)) as [Hz|Hnz].
  - intros [= <- <-]. exists []. split.
    { split_and!; [done|by rewrite app_nil_r|done]. }
    split; [apply heap_frame_refl|]. left. split; [|done].
    apply size_empty_inv in Hz. by apply leibniz_equiv in Hz.
  - intros Hrun.
    apply (waitLoop_inv _ _ _ _ _ (map_get objs w) HE _ _ _ []) in Hrun
      as (T & Hw & Hf & Hres).
    + exists T. do 2 (split; [done|]). right. exact Hres.
    + split_and!; try done; [by left|set_solver..].
Qed.

End WaitLoop.

(** ** toState *)

Section ToState.

Context `{GoPath}.

Lemma waitFiles_ok E r status objs cluster (HE : range_ok E) fuel w c w' :
  waitFiles E fuel r status objs cluster w = Some ((c, None), w') →
  ∃ T, waited w w' T ∧ heap_frame objs w w' ∧ map_get objs w' = ∅ ∧
    polls status cluster (map_get objs w) T c.
Proof.
  intros Hrun. apply waitFiles_spec in Hrun as (T & Hw & Hf & Hres); [|done].
  exists T. do 2 (split; [done|]).
  destruct Hres as [[_ [=]]|[(s' & Hres & Hemp & Hinv)|(_ & ce & f & _ & [=] & _)]].
  destruct Hinv as (_ & Hret & Hset & Hnone & Hdone & Hnd & Herr).
  split; [done|]. unfold waitResult in Hres.
  destruct (curErr s') as [ce|] eqn:Hce.
  - destruct (haveDone s' && negb cluster) eqn:Hb; [|done].
    injection Hres as ->. apply andb_true_iff in Hb as [_ Hcl].
    destruct (Herr _ eq_refl) as [Hd _].
    split_and!; [by destruct Hw as (_&_&?)|by right|set_solver|].
    intros [->|?]; done.
  - injection Hres as ->.
    split_and!; [by destruct Hw as (_&_&?)|done|set_solver|]. intros _. set_solver.
Qed.

Lemma Save_run name body w res w' :
  Save name body w = (res, w') →
  trace w' = trace w ++ [EvSave name body res] ∧ heap w' = heap w ∧
  dbdir w' = dbdir w ∧ now w' = now w.
Proof. unfold Save. repeat case_match; intros [= <- <-]; done. Qed.

Lemma saveStatus_run path st w res w' :
  saveStatus path st w = (res, w') →
  ∃ body, trace w' = trace w ++ [EvSave (path +:+ "." +:+ st) body res] ∧
    heap w' = heap w ∧ dbdir w' = dbdir w.
Proof.
  unfold saveStatus, okStatus, bind, Now, ret. intros Hs.
  apply Save_run in Hs as (?&?&?&?). eauto.
Qed.

Lemma saveError_run path e w res w' :
  saveError path e w = (res, w') →
  ∃ body, trace w' = trace w ++ [EvSave (path +:+ "." +:+ StatusError) body res] ∧
    heap w' = heap w ∧ dbdir w' = dbdir w.
Proof.
  unfold saveError, errStatus, bind, Now, ret. intros Hs.
  apply Save_run in Hs as (?&?&?&?). eauto.
Qed.

Lemma foldr_union_elements (s : gset string) :
  foldr (λ k cp, {[k]} ∪ cp) ∅ (elements s) = s.
Proof.
  rewrite <- (list_to_set_elements_L s) at 2.
  induction (elements s) as [|x l IH]; simpl; [done|]. by rewrite IH.
Qed.

Lemma copyMap_run m w :
  copyMap m w = (length (heap w),
                 set_heap (heap w ++ [map_get m w]) w).
Proof. unfold copyMap, map_make. by rewrite foldr_union_elements. Qed.

Lemma map_get_fresh (s : gset string) w :
  map_get (length (heap w)) (set_heap (heap w ++ [s]) w) = s.
Proof.
  unfold map_get. simpl. rewrite lookup_app_r by lia.
  by rewrite Nat.sub_diag.
Qed.

Lemma heap_ext_refl w : heap_ext w w.
Proof. by intros l ?. Qed.

Lemma heap_ext_trans w1 w2 w3 : heap_ext w1 w2 → heap_ext w2 w3 → heap_ext w1 w3.
Proof.
  intros H12 H23 l Hl. rewrite H23, H12; [done..|].
  specialize (H12 l Hl). apply lookup_lt_is_Some.
  rewrite H12. by apply lookup_lt_is_Some.
Qed.

Lemma heap_ext_eq w w' : heap w' = heap w → heap_ext w w'.
Proof. intros Hh l ?. by rewrite Hh. Qed.

Lemma heap_ext_alloc (s : gset string) w : heap_ext w (set_heap (heap w ++ [s]) w).
Proof. intros l Hl. simpl. by rewrite lookup_app_l. Qed.

Lemma heap_ext_frame m w0 w w' :
  (length (heap w0) ≤ m)%nat → heap_ext w0 w → heap_frame m w w' → heap_ext w0 w'.
Proof.
  intros Hm H0 [_ Hf] l Hl. rewrite Hf by lia. by apply H0.
Qed.

Lemma heap_ext_map_get w w' m :
  heap_ext w w' → (m < length (heap w))%nat → map_get m w' = map_get m w.
Proof. intros Hext Hm. unfold map_get. by rewrite Hext. Qed.

Lemma heap_ext_length w w' : heap_ext w w' → (length (heap w) ≤ length (heap w'))%nat.
Proof.
  intros Hext. destruct (decide (length (heap w) ≤ length (heap w'))%nat); [done|].
  assert (length (heap w') < length (heap w))%nat as Hl by lia.
  specialize (Hext _ Hl). rewrite lookup_ge_None_2 in Hext by lia.
  symmetry in Hext. apply lookup_ge_None_1 in Hext. lia.
Qed.



Lemma is_read_no_save T name body x : Forall is_read T → EvSave name body x ∉ T.
Proof.
  intros HT Hin. rewrite Forall_forall in HT. by apply HT in Hin.
Qed.

Lemma stage_spec E (HE : range_ok E) fuel r status cond m cluster path msg w err w' :
  stage E fuel r status cond m cluster path msg w = Some (err, w') →
  ∃ T, trace w' = trace w ++ T ∧ heap_ext w w' ∧ dbdir w' = dbdir w ∧
    writes_within T (λ name, ∃ c, published status c ∧ name = path +:+ "." +:+ c) ∧
    (err = None →
       if cond
       then ∃ T1 c b, T = T1 ++ [EvSave (path +:+ "." +:+ c) b None] ∧
              polls status cluster (map_get m w) T1 c
       else T = []).
Proof.
  unfold stage. destruct cond.
  2:{ intros [= <- <-]. exists []. rewrite app_nil_r.
      split_and!; try done. intros ??? Hin. inversion Hin. }
  unfold bindF, lift. rewrite copyMap_run.
  set (w1 := set_heap _ w).
  destruct (waitFiles _ _ _ _ _ _ w1) as [[[cstat werr] w2]|] eqn:Hwait; [|done].
  assert (heap_ext w w1) as Hext1 by apply heap_ext_alloc.
  destruct werr as [e|].
  - intros [= <- <-].
    apply waitFiles_spec in Hwait as (T & (Hd & Ht & Hr) & Hf & _); [|done].
    exists T. split_and!; try done.
    + eapply heap_ext_frame; [|exact Hext1|exact Hf]. done.
    + intros ??? Hin. by apply is_read_no_save in Hin.
  - apply waitFiles_ok in Hwait as (T & (Hd & Ht & Hr) & Hf & _ & Hpolls); [|done].
    unfold w1 in Hpolls. rewrite map_get_fresh in Hpolls.
    destruct (saveStatus path cstat w2) as [serr w3] eqn:Hsave.
    apply saveStatus_run in Hsave as (b & Ht3 & Hh3 & Hd3).
    unfold retF. intros [= <- <-].
    exists (T ++ [EvSave (path +:+ "." +:+ cstat) b serr]).
    split_and!.
    + rewrite Ht3, Ht. simpl. by rewrite app_assoc.
    + eapply heap_ext_trans; [|by apply heap_ext_eq].
      eapply heap_ext_frame; [|exact Hext1|exact Hf]. done.
    + rewrite Hd3, Hd. done.
    + intros ??? [Hin|Hin]%elem_of_app; [by apply is_read_no_save in Hin|].
      apply list_elem_of_singleton in Hin. injection Hin as -> -> ->.
      exists cstat. split; [|done]. by destruct Hpolls as (_ & ? & _).
    + destruct serr; [done|]. intros _. by exists T, cstat, b.
Qed.


Lemma toState_rs_stage E fuel r status :
  toState_rs E fuel r status
  = stage E fuel r status
      (IsPrimary (nodeInfo r) || bool_decide (status = StatusDone))
      (syncPathPeers r) false (syncPathRS r) "wait for nodes in rs".
Proof. done. Qed.

Lemma toState_cluster_stage E fuel r status :
  toState_cluster E fuel r status
  = stage E fuel r status
      (IsClusterLeader (nodeInfo r) || bool_decide (status = StatusDone))
      (syncPathShards r) true (syncPathCluster r) "wait for shards".
Proof. done. Qed.

Lemma writes_within_app T1 T2 P :
  writes_within T1 P → writes_within T2 P → writes_within (T1 ++ T2) P.
Proof. intros H1 H2 ??? [?|?]%elem_of_app; eauto. Qed.

Lemma writes_within_weaken T (P Q : string → Prop) :
  (∀ n, P n → Q n) → writes_within T P → writes_within T Q.
Proof. intros HPQ HT ????. eauto. Qed.

Lemma writes_within_reads T P : Forall is_read T → writes_within T P.
Proof. intros HT ??? Hin. by apply is_read_no_save in Hin. Qed.

Lemma writes_within_one name body x (P : string → Prop) :
  P name → writes_within [EvSave name body x] P.
Proof. intros HP ??? Hin. apply list_elem_of_singleton in Hin. by simplify_eq. Qed.

Lemma toState_body_run E (HE : range_ok E) fuel r status w res w' :
  toState_body E fuel r status w = Some (res, w') →
  ∃ T, trace w' = trace w ++ T ∧ heap_ext w w' ∧ dbdir w' = dbdir w ∧
    writes_within T (toState_names r status) ∧
    (valid_maps r w → res.2 = None →
       toState_calls r status (map_get (syncPathPeers r) w)
         (map_get (syncPathShards r) w) T res.1).
Proof.
  unfold toState_body, bindF, lift, retF.
  destruct (saveStatus (syncPathNode r) status w) as [serr w1] eqn:Hsave.
  apply saveStatus_run in Hsave as (b0 & Ht1 & Hh1 & Hd1).
  assert (writes_within [EvSave (syncPathNode r +:+ "." +:+ status) b0 serr]
            (toState_names r status)) as Hw1.
  { apply writes_within_one. by left. }
  destruct serr as [e|].
  { intros [= <- <-]. eexists. split; [exact Ht1|].
    split_and!; [by apply heap_ext_eq|done|done|done]. }
  rewrite toState_rs_stage.
  destruct (stage _ _ _ _ _ _ _ _ _ w1) as [[rerr w2]|] eqn:Hrs; [|done].
  apply stage_spec in Hrs as (Trs & Ht2 & Hh2 & Hd2 & Hw2 & Hok2); [|done].
  apply (writes_within_weaken _ _ (toState_names r status)) in Hw2; cycle 1.
  { intros n (c & ? & ->). right. left. eauto. }
  assert (heap_ext w w2) as Hext2.
  { eapply heap_ext_trans; [by apply heap_ext_eq|done]. }
  destruct rerr as [e|].
  { intros [= <- <-]. eexists. split; [by rewrite Ht2, Ht1, <- app_assoc|].
    split_and!; [done|congruence|by apply writes_within_app|done]. }
  rewrite toState_cluster_stage.
  destruct (stage _ _ _ _ _ _ _ _ _ w2) as [[cerr w3]|] eqn:Hcl; [|done].
  apply stage_spec in Hcl as (Tcl & Ht3 & Hh3 & Hd3 & Hw3 & Hok3); [|done].
  apply (writes_within_weaken _ _ (toState_names r status)) in Hw3; cycle 1.
  { intros n (c & ? & ->). right. left. eauto. }
  assert (heap_ext w w3) as Hext3 by (by eapply heap_ext_trans).
  destruct cerr as [e|].
  { intros [= <- <-]. eexists. split; [by rewrite Ht3, Ht2, Ht1, <- !app_assoc|].
    split_and!; [done|congruence| |done].
    by repeat apply writes_within_app. }
  unfold map_make.
  set (w4 := set_heap _ w3).
  destruct (waitFiles _ _ _ _ _ _ w4) as [[[cstat werr] w5]|] eqn:Hwait; [|done].
  assert (heap_ext w w4) as Hext4.
  { eapply heap_ext_trans; [exact Hext3|apply heap_ext_alloc]. }
  assert (map_get (syncPathPeers r) w1 = map_get (syncPathPeers r) w) as Hpeers.
  { by apply map_get_heap. }
  assert (trace w4 = trace w3 ∧ dbdir w4 = dbdir w3) as [Ht4 Hd4] by done.
  assert (length (heap w) ≤ length (heap w3))%nat as Hlen by (by apply heap_ext_length).
  destruct werr as [e|].
  - intros [= <- <-].
    apply waitFiles_spec in Hwait as (T & (Hd & Ht & Hr) & Hf & _); [|done].
    exists ([EvSave (syncPathNode r +:+ "." +:+ status) b0 None] ++ Trs ++ Tcl ++ T).
    split; [by rewrite Ht, Ht4, Ht3, Ht2, Ht1, <- !app_assoc|].
    split_and!; [|congruence| |done].
    + by eapply heap_ext_frame.
    + repeat apply writes_within_app; try done. by apply writes_within_reads.
  - intros [= <- <-].
    apply waitFiles_ok in Hwait as (T & (Hd & Ht & Hr) & Hf & _ & Hpolls); [|done].
    unfold w4 in Hpolls. rewrite map_get_fresh in Hpolls.
    exists ([EvSave (syncPathNode r +:+ "." +:+ status) b0 None] ++ Trs ++ Tcl ++ T).
    split; [by rewrite Ht, Ht4, Ht3, Ht2, Ht1, <- !app_assoc|].
    split_and!; [|congruence| |].
    + by eapply heap_ext_frame.
    + repeat apply writes_within_app; try done. by apply writes_within_reads.
    + intros [Hvp Hvs] _. simpl. specialize (Hok2 eq_refl). specialize (Hok3 eq_refl).
      assert (map_get (syncPathShards r) w2 = map_get (syncPathShards r) w) as Hshards.
      { by apply heap_ext_map_get. }
      rewrite Hpeers in Hok2. rewrite Hshards in Hok3.
      unfold toState_calls.
      destruct (IsPrimary (nodeInfo r) || _);
        [destruct Hok2 as (T1 & c1 & b1 & -> & Hp1)|rewrite Hok2];
        (destruct (IsClusterLeader (nodeInfo r) || _);
          [destruct Hok3 as (T2 & c2 & b2 & -> & Hp2)|rewrite Hok3]).
      * exists b0, T1, c1, b1, T2, c2, b2, T. by rewrite <- !app_assoc.
      * exists b0, T1, c1, b1, [], "", "", T. by rewrite <- !app_assoc.
      * exists b0, [], "", "", T2, c2, b2, T. by rewrite <- !app_assoc.
      * exists b0, [], "", "", [], "", "", T. done.
Qed.

Lemma when_saveError_run (b : bool) path e w x w' :
  when b (discard (saveError path e)) w = (x, w') →
  ∃ T', trace w' = trace w ++ T' ∧ heap w' = heap w ∧ dbdir w' = dbdir w ∧
    (b = false → T' = []) ∧
    writes_within T' (λ n, b = true ∧ n = path +:+ "." +:+ StatusError).
Proof.
  unfold when, discard, bind, ret. destruct b.
  - destruct (saveError path e w) as [serr w4] eqn:Hs.
    apply saveError_run in Hs as (body & ? & ? & ?). intros [= <- <-].
    eexists. split_and!; [done..|]. by apply writes_within_one.
  - intros [= <- <-]. exists []. rewrite app_nil_r. split_and!; try done.
    intros ??? Hin. inversion Hin.
Qed.

(** A [toState] that has returned: its store calls, the maps and the data
    directory. *)
Lemma toState_run E (HE : range_ok E) fuel r status w res w' :
  toState E fuel r status w = Some (res, w') →
  ∃ T, trace w' = trace w ++ T ∧ heap_ext w w' ∧ dbdir w' = dbdir w ∧
    writes_within T (toState_names r status) ∧
    (valid_maps r w → res.2 = None →
       toState_calls r status (map_get (syncPathPeers r) w)
         (map_get (syncPathShards r) w) T res.1).
Proof.
  unfold toState, bindF, lift, retF.
  destruct (toState_body E fuel r status w) as [[res1 w1]|] eqn:Hbody; [|done].
  apply toState_body_run in Hbody as (T & Ht & Hh & Hd & Hw & Hok); [|done..].
  unfold toState_defer.
  destruct res1 as [st [e|]]; simpl.
  2:{ intros [= <- <-]. exists T. done. }
  unfold bind at 1.
  destruct (when _ _ w1) as [x1 w2] eqn:H1.
  apply when_saveError_run in H1 as (T1 & Ht1 & Hh1 & Hd1 & _ & Hw1).
  destruct (when _ _ w2) as [x2 w3] eqn:H2.
  apply when_saveError_run in H2 as (T2 & Ht2 & Hh2 & Hd2 & _ & Hw2).
  intros [= <- <-]. exists (T ++ T1 ++ T2).
  split; [by rewrite Ht2, Ht1, Ht, <- !app_assoc|]. split_and!.
  - eapply heap_ext_trans; [exact Hh|]. apply heap_ext_eq. congruence.
  - congruence.
  - repeat apply writes_within_app; [done| |].
    + eapply writes_within_weaken; [|exact Hw1]. simpl.
      intros n [[_ Hb%negb_true_iff%bool_decide_eq_false]%andb_true_iff ->].
      right. right. split; [done|]. by left.
    + eapply writes_within_weaken; [|exact Hw2]. simpl.
      intros n [[_ Hb%negb_true_iff%bool_decide_eq_false]%andb_true_iff ->].
      right. right. split; [done|]. by right.
  - done.
Qed.

End ToState.

(** ** The error policy of waitFiles *)

Section ErrorPolicy.

Context `{GoPath}.










End ErrorPolicy.

(** ** The artifact planner *)

Section PlannerProofs.

Context `{GoPath} `{Outside}.

Lemma dom_targets_acc fs (m : gmap string bool) :
  dom (foldl (λ m f, <[Name f := false]> m) m fs)
  = dom m ∪ list_to_set (Name <$> fs).
Proof.
  revert m. induction fs as [|f fs IH]; intros m; simpl.
  - set_solver.
  - rewrite IH, dom_insert_L. set_solver.
Qed.

Lemma dom_targets fs : dom (targets fs) = list_to_set (Name <$> fs).
Proof. unfold targets. rewrite dom_targets_acc. set_solver. Qed.

Lemma targets_false_acc fs (m : gmap string bool) n :
  (∀ n, n ∈ dom m → m !! n = Some false) →
  n ∈ dom (foldl (λ m f, <[Name f := false]> m) m fs) →
  foldl (λ m f, <[Name f := false]> m) m fs !! n = Some false.
Proof.
  revert m. induction fs as [|f fs IH]; intros m Hm; simpl; [by apply Hm|].
  apply IH. intros k Hk. rewrite dom_insert_L in Hk.
  destruct (decide (k = Name f)) as [->|Hne].
  - by rewrite lookup_insert_eq.
  - rewrite lookup_insert_ne by done. apply Hm. set_solver.
Qed.

Lemma targets_false fs n : n ∈ dom (targets fs) → targets fs !! n = Some false.
Proof. apply targets_false_acc. intros k Hk. set_solver. Qed.

(** The inner loop appends the files to emit, keeps the names of
    [targetFiles] and marks the emitted ones. *)
Lemma collect_spec fs : ∀ tf data dbp tf' data' dbp',
  collect fs tf data dbp = (tf', data', dbp') →
  data' = data ++ filter (emit (dom tf)) fs ∧
  dom tf' = dom tf ∧
  (∀ n, tf' !! n = Some true ↔
        tf !! n = Some true ∨ (∃ f, f ∈ filter (emit (dom tf)) fs ∧ Name f = n)) ∧
  dbp' = (if decide (dbp = "")
          then frame_dbpath (filter (emit (dom tf)) fs) else dbp).
Proof.
  induction fs as [|f fs IH]; intros tf data dbp tf' data' dbp'; simpl.
  - intros [= <- <- <-]. rewrite app_nil_r. split_and!; try done.
    + intros n. split; [by left|]. intros [?|(f & Hf & _)]; [done|]. inversion Hf.
    + by destruct (decide (dbp = "")).
  - destruct (bool_decide (is_Some (tf !! Name f)) && (0 <=? Off f) && (0 <=? Len f))
      eqn:Hb.
    + apply andb_true_iff in Hb as [[Hin%bool_decide_eq_true Ho%Z.leb_le]%andb_true_iff
                                       Hl%Z.leb_le].
      assert (emit (dom tf) f) as Hemit.
      { split; [by apply elem_of_dom|done]. }
      assert (dom (<[Name f := true]> tf) = dom tf) as Hdom.
      { rewrite dom_insert_L. apply elem_of_dom in Hin. set_solver. }
      intros Hrun. apply IH in Hrun as (-> & Hd & Hm & Hp). rewrite Hdom in *.
      rewrite filter_cons_True by done. split_and!.
      * by rewrite <- app_assoc.
      * done.
      * intros n. rewrite Hm. destruct (decide (n = Name f)) as [->|Hne].
        -- rewrite lookup_insert_eq. split; intros _; [|by left].
           right. exists f. split; [left|done].
        -- rewrite lookup_insert_ne by done. split.
           ++ intros [?|(g & Hg & <-)]; [by left|right]. exists g. split; [by right|done].
           ++ intros [?|(g & Hg & <-)]; [by left|right].
              apply elem_of_cons in Hg as [->|Hg]; [done|]. by exists g.
      * rewrite Hp. unfold frame_dbpath. simpl.
        destruct (decide (dbp = "")) as [->|Hne]; simpl.
        -- destruct (decide ((findDBpath (Name f)).2 = "")) as [He|Hne].
           ++ rewrite He. rewrite filter_cons_False by naive_solver. done.
           ++ rewrite filter_cons_True by done. done.
        -- by destruct (decide (dbp = "")).
    + assert (¬ emit (dom tf) f) as Hemit.
      { intros (Hin & Ho & Hl). apply elem_of_dom in Hin.
        rewrite bool_decide_eq_true_2 in Hb by done.
        apply Z.leb_le in Ho, Hl. rewrite Ho, Hl in Hb. done. }
      intros Hrun. apply IH in Hrun as (-> & Hd & Hm & Hp).
      rewrite filter_cons_False by done. done.
Qed.


Lemma emitted_app fs1 fs2 n : emitted (fs1 ++ fs2) n ↔ emitted fs1 n ∨ emitted fs2 n.
Proof.
  unfold emitted. split.
  - intros (fr & f & [?|?]%elem_of_app & ? & ?); [left|right]; eauto.
  - intros [(fr & f & ? & ? & ?)|(fr & f & ? & ? & ?)]; exists fr, f;
      rewrite elem_of_app; eauto.
Qed.

Lemma emitted_cons fr frs n :
  emitted (fr :: frs) n ↔ (∃ f, f ∈ fData fr ∧ Name f = n) ∨ emitted frs n.
Proof.
  unfold emitted. split.
  - intros (fr' & f & [->|?]%elem_of_cons & ? & ?); [left|right]; eauto.
  - intros [(f & ? & ?)|(fr' & f & ? & ? & ?)].
    + exists fr, f. split; [left|done].
    + exists fr', f. split; [by right|done].
Qed.

Lemma emitted_one fr n : emitted [fr] n ↔ ∃ f, f ∈ fData fr ∧ Name f = n.
Proof.
  unfold emitted. split.
  - intros (fr' & f & ->%list_elem_of_singleton & ? & ?). eauto.
  - intros (f & ? & ?). exists fr, f. split; [left|done].
Qed.

(** The loop over the chain: a frame per backup. *)
Lemma planLoop_spec db setName fuel : ∀ b rs tf fs tf' fs',
  planLoop db fuel setName b (Some rs) tf fs = Some (Done (tf', fs', None)) →
  ∃ chain, is_chain db setName b rs chain ∧
    fs' = fs ++ ((λ p, frame_of (dom tf) p.1 p.2) <$> chain) ∧
    dom tf' = dom tf ∧
    ∀ n, tf' !! n = Some true ↔
         tf !! n = Some true ∨ emitted ((λ p, frame_of (dom tf) p.1 p.2) <$> chain) n.
Proof.
  induction fuel as [|fuel IH]; intros b rs tf fs tf' fs'; [done|]. simpl.
  destruct (collect (section_files rs) tf [] "") as [[tf1 data] dbp] eqn:Hc.
  apply collect_spec in Hc as (Hdata & Hdom & Hm & Hp).
  simpl in Hdata, Hp. subst data dbp.
  change (mkFiles (bcpName b) (Compression b) _ _) with (frame_of (dom tf) b rs).
  destruct (decide (SrcBackup b = "")) as [Hsrc|Hsrc].
  - intros [= <- <-]. exists [(b, rs)]. split; [|split_and!; try done].
    + simpl. by rewrite decide_True.
    + intros n. simpl. rewrite Hm, emitted_one. done.
  - destruct (GetBackupMeta db (SrcBackup b)) as [[b'|] [e|]] eqn:Hget; try done.
    destruct (getRS b' setName) as [rs'|] eqn:Hrs.
    2:{ destruct fuel; done. }
    intros Hrun. apply IH in Hrun as (chain & Hchain & -> & Hdom' & Hm').
    rewrite Hdom in *. exists ((b, rs) :: chain). split; [|split_and!].
    + simpl. do 2 (split; [done|]). rewrite decide_False by done. by exists b', rs'.
    + simpl. by rewrite <- app_assoc.
    + done.
    + intros n. rewrite Hm', Hm, fmap_cons, emitted_cons. simpl. tauto.
Qed.

(** With a unit of fuel per backup of the chain the loop ends. *)
Lemma planLoop_total db setName chain : ∀ fuel b rs tf fs,
  is_chain db setName b rs chain → (length chain ≤ fuel)%nat →
  ∃ tf' fs', planLoop db fuel setName b (Some rs) tf fs = Some (Done (tf', fs', None)).
Proof.
  induction chain as [|[b0 rs0] chain IH]; intros fuel b rs tf fs; [done|].
  simpl. intros (-> & -> & Hrest) Hlen.
  destruct fuel as [|fuel]; [lia|]. simpl.
  destruct (collect (section_files rs) tf [] "") as [[tf1 data] dbp].
  destruct (decide (SrcBackup b = "")) as [Hsrc|Hsrc]; [by eauto|].
  destruct Hrest as (b' & rs' & -> & Hrs & Hchain). rewrite Hrs.
  apply IH; [done|lia].
Qed.

(** The directories to create. *)
Lemma collectDirs_spec ents : ∀ dirs dirsm,
  dirsm = list_to_set ((λ d, path_Dir (Name d)) <$> dirs) →
  NoDup ((λ d, path_Dir (Name d)) <$> dirs) →
  ∃ extra, collectDirs ents dirs dirsm = dirs ++ extra ∧
    NoDup ((λ d, path_Dir (Name d)) <$> dirs ++ extra) ∧
    (∀ d, d ∈ extra →
       Off d = -1 ∧ Len d = -1 ∧ Size d = -1 ∧
       (Name d, false) ∈ ents ∧ path_Dir (Name d) ≠ ".") ∧
    (∀ n, (n, false) ∈ ents → path_Dir n ≠ "." →
       ∃ d, d ∈ dirs ++ extra ∧ path_Dir (Name d) = path_Dir n).
Proof.
  induction ents as [|[f was] ents IH]; intros dirs dirsm Hm Hnd; simpl.
  - exists []. rewrite app_nil_r. split_and!; try done.
    + intros d Hd. inversion Hd.
    + intros n Hn. inversion Hn.
  - assert (∀ extra, 
      (∃ extra', extra = extra' ∧ 
        NoDup ((λ d, path_Dir (Name d)) <$> dirs ++ extra') ∧
        (∀ d, d ∈ extra' →
           Off d = -1 ∧ Len d = -1 ∧ Size d = -1 ∧
           (Name d, false) ∈ ents ∧ path_Dir (Name d) ≠ ".") ∧
        (∀ n, (n, false) ∈ ents → path_Dir n ≠ "." →
           ∃ d, d ∈ dirs ++ extra' ∧ path_Dir (Name d) = path_Dir n)) →
      (was = true ∨ path_Dir f = "." ∨ path_Dir f ∈ dirsm) →
      NoDup ((λ d, path_Dir (Name d)) <$> dirs ++ extra) ∧
      (∀ d, d ∈ extra →
         Off d = -1 ∧ Len d = -1 ∧ Size d = -1 ∧
         (Name d, false) ∈ (f, was) :: ents ∧ path_Dir (Name d) ≠ ".") ∧
      (∀ n, (n, false) ∈ (f, was) :: ents → path_Dir n ≠ "." →
         ∃ d, d ∈ dirs ++ extra ∧ path_Dir (Name d) = path_Dir n)) as Hskip.
    { intros extra (? & <- & Hnd' & Hall & Hcov) Hwhy. split_and!; [done| |].
      - intros d Hd. destruct (Hall d Hd) as (?&?&?&?&?). split_and!; try done. by right.
      - intros n [[= -> <-]|Hn]%elem_of_cons Hdot; [|by apply Hcov].
        destruct Hwhy as [?|[?|Hin]]; [done..|].
        rewrite Hm in Hin. apply elem_of_list_to_set, list_elem_of_fmap in Hin
          as (d & Hd & Hin). exists d. split; [|done]. apply elem_of_app. by left. }
    destruct was; simpl.
    { destruct (IH dirs dirsm Hm Hnd) as (extra & -> & Hrest). exists extra.
      split; [done|]. apply Hskip; [by exists extra|by left]. }
    destruct (decide (path_Dir f = ".")) as [Hdot|Hdot].
    { rewrite bool_decide_eq_true_2 by done. simpl.
      destruct (IH dirs dirsm Hm Hnd) as (extra & -> & Hrest). exists extra.
      split; [done|]. apply Hskip; [by exists extra|by right; left]. }
    rewrite bool_decide_eq_false_2 by done. simpl.
    destruct (decide (path_Dir f ∈ dirsm)) as [Hin|Hin].
    { rewrite bool_decide_eq_true_2 by done. simpl.
      destruct (IH dirs dirsm Hm Hnd) as (extra & -> & Hrest). exists extra.
      split; [done|]. apply Hskip; [by exists extra|by right; right]. }
    rewrite bool_decide_eq_false_2 by done. simpl.
    set (d0 := mkFile f (-1) (-1) (-1) 0 0).
    destruct (IH (dirs ++ [d0]) ({[path_Dir f]} ∪ dirsm)) as (extra & -> & Hnd' & Hall & Hcov).
    { rewrite fmap_app, list_to_set_app_L, Hm. simpl. set_solver. }
    { rewrite fmap_app. apply NoDup_app. split; [done|]. split.
      - intros x Hx ->%list_elem_of_singleton. apply Hin. rewrite Hm.
        by apply elem_of_list_to_set.
      - apply NoDup_singleton. }
    exists (d0 :: extra). rewrite <- app_assoc in *. simpl in *.
    split; [done|]. split; [done|]. split.
    + intros d [->|Hd]%elem_of_cons.
      * split_and!; try done. left.
      * destruct (Hall d Hd) as (?&?&?&?&?). split_and!; try done. by right.
    + intros n [[= ->]|Hn]%elem_of_cons Hdot'; [|by apply Hcov].
      exists d0. split; [|done]. apply elem_of_app. right. left.
Qed.

End PlannerProofs.

Section PlannerTheorem.

Context `{GoPath} `{Outside}.

Lemma setBcpFiles_sound db fuel r b rs r' :
  rangeFiles_ok db →
  bcp r = Some b →
  getRS b (mapRevRS (SetName (nodeInfo r))) = Some rs →
  setBcpFiles db fuel r = Some (Done (r', None)) →
  let T : gset string := list_to_set (Name <$> section_files rs) in
  ∃ chain dirs,
    is_chain db (mapRevRS (SetName (nodeInfo r))) b rs chain ∧
    dirs_ok T ((λ p, frame_of T p.1 p.2) <$> chain) dirs ∧
    rfiles r' = rfiles r ++ plan_of T chain dirs.
Proof.
  intros Hdb Hb Hrs. unfold setBcpFiles. rewrite Hb, Hrs.
  destruct (planLoop _ _ _ _ _ _ _) as [[[[tf fs] [e|]]|]|] eqn:Hloop; try done.
  intros [= <-]. simpl.
  apply planLoop_spec in Hloop as (chain & Hchain & -> & Hdom & Hm).
  rewrite dom_targets in *.
  set (T := list_to_set (Name <$> section_files rs) : gset string) in *.
  set (frames := (λ p, frame_of T p.1 p.2) <$> chain) in *.
  destruct (collectDirs_spec (rangeFiles db tf) [] ∅) as (dirs & Hcd & Hnd & Hall & Hcov).
  { done. } { constructor. }
  simpl in Hcd, Hnd, Hcov.
  assert (∀ n, (n, false) ∈ rangeFiles db tf ↔ n ∈ T ∧ ¬ emitted frames n) as Hfalse.
  { intros n. rewrite (Hdb tf), elem_of_map_to_list. split.
    - intros Hn. assert (n ∈ T) as HT.
      { rewrite <- Hdom. apply elem_of_dom. eauto. }
      split; [done|]. intros Hem.
      assert (tf !! n = Some true) as Ht by (apply Hm; by right). congruence.
    - intros [HT Hem]. assert (is_Some (tf !! n)) as [[|] Hv].
      { apply elem_of_dom. by rewrite Hdom. }
      + apply Hm in Hv as [Hv|?]; [|done].
        rewrite targets_false in Hv; [done|]. by rewrite dom_targets.
      + done. }
  exists chain, dirs. split; [done|]. split.
  - split_and!.
    + intros d Hd. destruct (Hall d Hd) as (?&?&?&Hin&?).
      apply Hfalse in Hin as [? ?]. done.
    + done.
    + intros n HT Hem Hdot. apply Hcov; [|done]. apply Hfalse. done.
  - rewrite Hcd. unfold plan_of. fold frames. destruct dirs as [|d dirs]; simpl.
    + by rewrite app_nil_r.
    + by rewrite <- app_assoc.
Qed.

Lemma setBcpFiles_total db fuel r b rs chain :
  bcp r = Some b →
  getRS b (mapRevRS (SetName (nodeInfo r))) = Some rs →
  is_chain db (mapRevRS (SetName (nodeInfo r))) b rs chain →
  (length chain ≤ fuel)%nat →
  ∃ r', setBcpFiles db fuel r = Some (Done (r', None)).
Proof.
  intros Hb Hrs Hchain Hlen. unfold setBcpFiles. rewrite Hb, Hrs.
  destruct (planLoop_total db _ chain fuel b rs (targets (section_files rs)) (rfiles r)
              Hchain Hlen) as (tf & fs & ->).
  eauto.
Qed.

End PlannerTheorem.

(** ** Copying the files *)

Section CopyProofs.

Context `{GoPath} `{Outside}.

Variable fails : FsOp → option error.

Lemma perform_app p1 p2 :
  perform fails (p1 ++ p2) =
    match (perform fails p1).2 with
    | None => ((perform fails p1).1 ++ (perform fails p2).1, (perform fails p2).2)
    | Some x => perform fails p1
    end.
Proof.
  induction p1 as [|op p1 IH]; simpl.
  - by destruct (perform fails p2).
  - destruct (fails op); [done|]. rewrite IH.
    destruct (perform fails p1) as [ops [x|]]; simpl; [done|].
    by destruct (perform fails p2).
Qed.

Lemma perform_ok plan :
  (∀ op, op ∈ plan → fails op = None) → perform fails plan = (plan, None).
Proof.
  induction plan as [|op plan IH]; intros Hok; simpl; [done|].
  rewrite (Hok op) by left. rewrite IH; [done|]. intros. apply Hok. by right.
Qed.

Lemma copyFile_perform r setName set f done :
  (copyFile fails r setName set f done).1
    = done ++ (perform fails (file_plan r setName set f)).1 ∧
  copy_result (perform fails (file_plan r setName set f)).2
    (copyFile fails r setName set f done).2.
Proof.
  unfold copyFile, file_plan, src_path, dst_path, attempt.
  set (base := filepath_Join [BcpName set; setName; Name f +:+ Suffix (Cmpr set)]).
  assert ((if decide (Len f ≠ 0)
           then base +:+ "." +:+ itoa (Off f) +:+ "-" +:+ itoa (Len f) else base)
          = (if decide (Len f = 0) then base
             else base +:+ "." +:+ itoa (Off f) +:+ "-" +:+ itoa (Len f))) as ->.
  { by repeat case_decide. }
  assert ((if decide (fdbpath set ≠ "") then TrimPrefix (Name f) (fdbpath set) else Name f)
          = (if decide (fdbpath set = "") then Name f
             else TrimPrefix (Name f) (fdbpath set))) as ->.
  { by repeat case_decide. }
  set (src := if decide (Len f = 0) then _ else _).
  set (dst := filepath_Join _).
  simpl. destruct (fails (MkdirAll _)); simpl; [by eauto|].
  destruct (decide (BcpName set = bcpDir)); simpl.
  { done. }
  destruct (fails (ReadSrc src)); simpl; [rewrite <- ?app_assoc; by eauto|].
  destruct (fails (Decompress src _)); simpl; [rewrite <- ?app_assoc; by eauto|].
  destruct (fails (OpenDst dst _)); simpl; [rewrite <- ?app_assoc; by eauto|].
  destruct (decide (Off f ≠ 0)), (decide (Off f = 0)); try done; simpl.
  - destruct (fails (Seek dst _)); simpl; [rewrite <- ?app_assoc; by eauto|].
    destruct (fails (Copy src dst)); simpl; [rewrite <- ?app_assoc; by eauto|].
    destruct (decide (Size f ≠ 0)), (decide (Size f = 0)); try done; simpl.
    + destruct (fails (Truncate dst _)); simpl; rewrite <- ?app_assoc; by eauto.
    + by rewrite <- ?app_assoc.
  - destruct (fails (Copy src dst)); simpl; [rewrite <- ?app_assoc; by eauto|].
    destruct (decide (Size f ≠ 0)), (decide (Size f = 0)); try done; simpl.
    + destruct (fails (Truncate dst _)); simpl; rewrite <- ?app_assoc; by eauto.
    + by rewrite <- ?app_assoc.
Qed.

Lemma copySet_perform r setName set fs : ∀ done,
  (copySet fails r setName set fs done).1
    = done ++ (perform fails (flat_map (file_plan r setName set) fs)).1 ∧
  copy_result (perform fails (flat_map (file_plan r setName set) fs)).2
    (copySet fails r setName set fs done).2.
Proof.
  induction fs as [|f fs IH]; intros done; cbn [copySet flat_map].
  - simpl. by rewrite app_nil_r.
  - destruct (copyFile_perform r setName set f done) as [H1 H2].
    rewrite perform_app.
    destruct (copyFile fails r setName set f done) as [done1 res1].
    destruct (perform fails (file_plan r setName set f)) as [ops [[op e]|]];
      cbn [fst snd copy_result] in *.
    + destruct H2 as [msg ->]. cbn [fst snd]. split; [done|by eauto].
    + subst res1. destruct (IH done1) as [H3 H4]. rewrite H3. subst done1.
      by rewrite <- app_assoc.
Qed.

Lemma copySets_perform r setName sets : ∀ done,
  (copySets fails r setName sets done).1
    = done ++ (perform fails
                 (flat_map (λ set, flat_map (file_plan r setName set) (fData set)) sets)).1 ∧
  copy_result
    (perform fails
       (flat_map (λ set, flat_map (file_plan r setName set) (fData set)) sets)).2
    (copySets fails r setName sets done).2.
Proof.
  induction sets as [|set sets IH]; intros done; cbn [copySets flat_map].
  - simpl. by rewrite app_nil_r.
  - destruct (copySet_perform r setName set (fData set) done) as [H1 H2].
    rewrite perform_app.
    destruct (copySet fails r setName set (fData set) done) as [done1 res1].
    destruct (perform fails (flat_map (file_plan r setName set) (fData set)))
      as [ops [[op e]|]]; cbn [fst snd copy_result] in *.
    + destruct H2 as [msg ->]. cbn [fst snd]. split; [done|by eauto].
    + subst res1. destruct (IH done1) as [H3 H4]. rewrite H3. subst done1.
      by rewrite <- app_assoc.
Qed.

End CopyProofs.

(** ** The claims about the rendezvous *)

Section RendezvousClaims.

Context `{GoPath}.




(** C10. A call of [toState] that has returned leaves the maps
    [syncPathPeers] and [syncPathShards] of the receiver as they were,
    although a successful [waitFiles] leaves the map it was given empty:
    [toState] hands [waitFiles] a copy. A later call of [toState]
    therefore waits on the same peers and replica sets as the first. *)
Theorem toState_keeps_maps (E : Env) (fuel : nat) (r : PhysRestore) (status : Status)
    (w w' : World) (res : Status * option error) :
  range_ok E →
  valid_maps r w →
  toState E fuel r status w = Some (res, w') →
  heap w' !! syncPathPeers r = heap w !! syncPathPeers r ∧
  heap w' !! syncPathShards r = heap w !! syncPathShards r ∧
  map_get (syncPathPeers r) w' = map_get (syncPathPeers r) w ∧
  map_get (syncPathShards r) w' = map_get (syncPathShards r) w ∧
  (∀ fuel0 status0 objs cluster c w0 w0',
     waitFiles E fuel0 r status0 objs cluster w0 = Some ((c, None), w0') →
     map_get objs w0 ≠ ∅ ∧ map_get objs w0' = ∅) ∧
  (∀ fuel2 status2 st2 w2,
     toState E fuel2 r status2 w' = Some ((st2, None), w2) →
     ∃ T, trace w2 = trace w' ++ T ∧
       toState_calls r status2 (map_get (syncPathPeers r) w)
         (map_get (syncPathShards r) w) T st2).
Proof.
  intros HE [Hvp Hvs] Hrun.
  apply toState_run in Hrun as (T & Ht & Hext & _); [|done].
  assert (map_get (syncPathPeers r) w' = map_get (syncPathPeers r) w) as Hp
    by (by apply heap_ext_map_get).
  assert (map_get (syncPathShards r) w' = map_get (syncPathShards r) w) as Hs
    by (by apply heap_ext_map_get).
  split_and!; [by apply Hext|by apply Hext|done|done| |].
  - intros fuel0 status0 objs cluster c w0 w0' Hwait. split.
    + intros Hempty. unfold waitFiles in Hwait. rewrite Hempty in Hwait.
      by rewrite size_empty in Hwait.
    + by apply waitFiles_ok in Hwait as (? & _ & _ & ? & _).
  - intros fuel2 status2 st2 w2 Hrun2.
    apply toState_run in Hrun2 as (T2 & Ht2 & _ & _ & _ & Hcalls); [|done].
    exists T2. split; [done|]. rewrite <- Hp, <- Hs. apply Hcalls; [|done].
    apply heap_ext_length in Hext. split; lia.
Qed.


End RendezvousClaims.

(** ** The claims about the planner and the copy *)

Section PlanClaims.

Context `{GoPath} `{Outside}.

(** C6. When [setBcpFiles] succeeds, what it adds to [r.files] is: for
    each backup of the chain from the target back to the first backup
    without source, in this order, one frame with exactly the files of that
    backup's section for the replica set (files, then journal) whose name
    is a target name and whose [Off] and [Len] are not negative; and, if it
    has entries, a last frame [__dir__] whose entries stand for the target
    names that no frame has and whose parent directory is not [.], one per
    parent directory. And it does succeed whenever the chain exists and the
    fuel covers its length. *)
Theorem setBcpFiles_plan (db : Db) (fuel : nat) (r : PhysRestore) (b : BackupMeta)
    (rs : BackupReplset) :
  rangeFiles_ok db →
  bcp r = Some b →
  getRS b (mapRevRS (SetName (nodeInfo r))) = Some rs →
  let T : gset string := list_to_set (Name <$> section_files rs) in
  (∀ r', setBcpFiles db fuel r = Some (Done (r', None)) →
     ∃ chain dirs,
       is_chain db (mapRevRS (SetName (nodeInfo r))) b rs chain ∧
       dirs_ok T ((λ p, frame_of T p.1 p.2) <$> chain) dirs ∧
       rfiles r' = rfiles r ++ plan_of T chain dirs) ∧
  (∀ chain,
     is_chain db (mapRevRS (SetName (nodeInfo r))) b rs chain →
     (length chain ≤ fuel)%nat →
     ∃ r', setBcpFiles db fuel r = Some (Done (r', None))).
Proof.
  intros Hdb Hb Hrs T. split.
  - intros r' Hrun. by eapply setBcpFiles_sound.
  - intros chain Hchain Hfuel. by eapply setBcpFiles_total.
Qed.

(** C7. The calls of [copyFiles] are those of the plan [copy_plan], up to
    and including the first call that fails: the frames in the reverse of
    the order of [r.files], and per file descriptor the directories of the
    destination, then (unless the frame is the directory-only one) the
    source [<backup>/<replset>/<name><codec-suffix>], with [.<Off>-<Len>]
    exactly when [Len] is not zero, its decompression, the destination
    (the name without the frame's [dbpath] prefix), a seek to [Off]
    exactly when [Off] is not zero, the copy, and a truncation to [Size]
    exactly when [Size] is not zero. [copyFiles] returns the error of the
    failed call, wrapped, and no error when no call fails. *)
Theorem copyFiles_plan (fails : FsOp → option error) (r : PhysRestore) :
  (copyFiles fails r).1 = (perform fails (copy_plan r)).1 ∧
  copy_result (perform fails (copy_plan r)).2 (copyFiles fails r).2 ∧
  ((∀ op, op ∈ copy_plan r → fails op = None) → copyFiles fails r = (copy_plan r, None)).
Proof.
  unfold copyFiles, copy_plan.
  destruct (copySets_perform fails r (mapRevRS (SetName (nodeInfo r))) (rev (rfiles r)) [])
    as [Hops Hres].
  split; [exact Hops|]. split; [exact Hres|].
  intros Hok. apply perform_ok in Hok.
  unfold copy_plan in Hok. rewrite Hok in Hops, Hres. simpl in Hops, Hres.
  destruct (copySets _ _ _ _ _) as [ops res]. simpl in *. by subst.
Qed.

End PlanClaims.

(** ** The claims on the example cluster *)

Lemma range_ok_quiet : range_ok Example.quiet.
Proof. intros n s. reflexivity. Defined.


Lemma toState_keeps_maps_witness :
  range_ok Example.quiet ∧
  valid_maps Example.r1 Example.w1 ∧
  toState (H:=Example.paths) Example.quiet 3 Example.r1 StatusStarting Example.w1
    = Some ((StatusStarting, None), Example.w1_after) ∧
  map_get (syncPathPeers Example.r1) Example.w1_after
    = map_get (syncPathPeers Example.r1) Example.w1 ∧
  map_get (syncPathShards Example.r1) Example.w1_after
    = map_get (syncPathShards Example.r1) Example.w1.
Proof.
  assert (valid_maps Example.r1 Example.w1) as Hv by (split; simpl; lia).
  assert (toState (H:=Example.paths) Example.quiet 3 Example.r1 StatusStarting Example.w1
          = Some ((StatusStarting, None), Example.w1_after)) as Hrun
    by (vm_compute; reflexivity).
  split; [exact range_ok_quiet|]. split; [exact Hv|]. split; [exact Hrun|].
  destruct (toState_keeps_maps (H:=Example.paths) Example.quiet 3 Example.r1 StatusStarting
              Example.w1 Example.w1_after _ range_ok_quiet Hv Hrun)
    as (_ & _ & Hp & Hs & _).
  split; [exact Hp|exact Hs].
Defined.


Lemma checkHB_stuck_iff_witness :
  min_int64 ≤ startTS Example.r1 ≤ max_int64 - 240 ∧
  hb_recorded (H:=Example.paths) Example.w_late (Example.peer2 +:+ ".hb") 1000 ∧
  declared_stuck (H:=Example.paths) Example.r1 (Example.peer2 +:+ ".hb") Example.w_late.
Proof.
  assert (min_int64 ≤ startTS Example.r1 ≤ max_int64 - 240) as Hs by (vm_compute; split; discriminate).
  assert (hb_recorded (H:=Example.paths) Example.w_late (Example.peer2 +:+ ".hb") 1000) as Hrec.
  { exists "1000". split; [vm_compute; reflexivity|]. split; [discriminate|].
    vm_compute. reflexivity. }
  split; [exact Hs|]. split; [exact Hrec|].
  destruct (checkHB_stuck_iff (H:=Example.paths) Example.r1 (Example.peer2 +:+ ".hb")
              Example.w_late) as (_ & _ & _ & Hiff).
  apply Hiff.
  - exact Hs.
  - intros t (b & Hb & _ & Hp). vm_compute in Hb. injection Hb as <-.
    vm_compute in Hp. injection Hp as <-. vm_compute. discriminate.
  - left. exists 1000. split; [exact Hrec|]. vm_compute. reflexivity.
Defined.

Lemma setBcpFiles_plan_witness :
  rangeFiles_ok Example.db ∧
  bcp Example.r_incr = Some Example.incr ∧
  getRS Example.incr "rs0" = Some Example.incr_rs ∧
  setBcpFiles (H:=Example.paths) (H0:=Example.outside) Example.db 5 Example.r_incr
    = Some (Done (Example.r_planned, None)) ∧
  ∃ chain dirs,
    is_chain Example.db "rs0" Example.incr Example.incr_rs chain ∧
    dirs_ok (H:=Example.paths)
      (list_to_set (Name <$> section_files Example.incr_rs))
      ((λ p, frame_of (H:=Example.paths)
               (list_to_set (Name <$> section_files Example.incr_rs)) p.1 p.2) <$> chain)
      dirs ∧
    rfiles Example.r_planned
    = rfiles Example.r_incr
      ++ plan_of (H:=Example.paths)
           (list_to_set (Name <$> section_files Example.incr_rs)) chain dirs.
Proof.
  assert (rangeFiles_ok Example.db) as Hdb by (intros m; reflexivity).
  assert (setBcpFiles (H:=Example.paths) (H0:=Example.outside) Example.db 5 Example.r_incr
          = Some (Done (Example.r_planned, None))) as Hrun by (vm_compute; reflexivity).
  split; [exact Hdb|]. split; [reflexivity|]. split; [reflexivity|].
  split; [exact Hrun|].
  destruct (setBcpFiles_plan (H:=Example.paths) (H0:=Example.outside) Example.db 5
              Example.r_incr Example.incr Example.incr_rs Hdb eq_refl eq_refl)
    as [Hsound _].
  exact (Hsound Example.r_planned Hrun).
Defined.

Lemma copyFiles_plan_witness :
  copyFiles (H:=Example.paths) (H0:=Example.outside) (copy_fails Example.machine)
    Example.r_planned
  = (copy_plan (H:=Example.paths) (H0:=Example.outside) Example.r_planned, None).
Proof.
  destruct (copyFiles_plan (H:=Example.paths) (H0:=Example.outside)
              (copy_fails Example.machine) Example.r_planned) as (_ & _ & Hok).
  apply Hok. intros op _. reflexivity.
Defined.

(** ** Names of status objects *)

Lemma list_ascii_app (a b : string) :
  String.list_ascii_of_string (a +:+ b)
  = String.list_ascii_of_string a ++ String.list_ascii_of_string b.
Proof. induction a as [|c a IH]; simpl; [done|]. by rewrite IH. Qed.

Lemma string_of_list_app (l1 l2 : list Ascii.ascii) :
  String.string_of_list_ascii (l1 ++ l2)
  = String.string_of_list_ascii l1 +:+ String.string_of_list_ascii l2.
Proof. induction l1 as [|c l1 IH]; simpl; [done|]. by rewrite IH. Qed.

Lemma rev_string_app (a b : string) : rev_string (a +:+ b) = rev_string b +:+ rev_string a.
Proof.
  unfold rev_string. by rewrite list_ascii_app, rev_app_distr, string_of_list_app.
Qed.

(** A name whose last character is not that of [t] does not end in [t]. *)
Lemma HasSuffix_last (p s t : string) c d s' t' :
  rev_string s = String c s' → rev_string t = String d t' → c ≠ d →
  HasSuffix (p +:+ s) t = false.
Proof.
  intros Hs Ht Hcd. unfold HasSuffix. rewrite rev_string_app, Hs, Ht. simpl.
  destruct (Ascii.eqb_spec d c); [congruence|done].
Qed.

Lemma error_object_status (p : string) (c : Status) :
  c = StatusDone ∨ c = StatusPartlyDone ∨ c = StatusStarting ∨ c = StatusRunning
  ∨ c = StatusDown ∨ c = syncHbSuffix →
  error_object (p +:+ "." +:+ c) = false.
Proof.
  intros Hc. unfold error_object.
  replace (p +:+ "." +:+ c) with (p +:+ ("." +:+ c)) by done.
  destruct Hc as [-> | [-> | [-> | [-> | [-> | ->]]]]];
    (eapply HasSuffix_last; [vm_compute; reflexivity|vm_compute; reflexivity|done]).
Qed.

Lemma error_object_error (p : string) : error_object (p +:+ "." +:+ StatusError) = true.
Proof.
  unfold error_object, HasSuffix.
  replace (p +:+ "." +:+ StatusError) with (p +:+ ("." +:+ StatusError)) by done.
  rewrite rev_string_app.
  change (rev_string ("." +:+ StatusError)) with "rorre.".
  by destruct (rev_string p).
Qed.

Lemma error_object_json (p : string) : error_object (p +:+ ".json") = false.
Proof.
  unfold error_object. eapply HasSuffix_last; [vm_compute; reflexivity..|done].
Qed.
